(** * vellum-stream: the upload-and-processing pipeline, embedded in Rocq

    The development follows the TypeScript sources file by file:
    - [lib/videoStore.ts]      the SQLite-backed record store,
    - [lib/validation.ts]      the upload validator,
    - [controllers/video.Controller.ts]  session creation and direct ingress,
    - [controllers/utils/upload-utils.ts] codec probing and the transcoder,
    - [workers/videoProcessor.ts] the queue consumer,
    - [lib/tusServer.ts]       the hooks of the resumable ingress,
    - [lib/rabbitmq.ts]        the connection loop.

    The table [videos] is a finite map from the primary key to the row;
    every effect outside the process (FFmpeg, ffprobe, the object store,
    the webhook endpoint, the broker channel) is answered by an explicit
    [Env] record, so that every function below is total and computes. *)

From Stdlib Require Import ZArith String Ascii List Bool Lia.
From stdpp Require Import base option relations gmap strings list sorting pretty.

Local Open Scope string_scope.
Local Open Scope Z_scope.

(** ** JavaScript values used by the sources *)

(** A string is truthy when it is not empty; [undefined] and [null] are not. *)
Definition truthy (s : string) : bool := negb (String.eqb s EmptyString).

Definition truthyO (o : option string) : bool :=
  match o with
  | Some s => truthy s
  | None => false
  end.

(** [x || null] on an optional string column. *)
Definition orNull (o : option string) : option string :=
  if truthyO o then o else None.

(** ** lib/videoStore.ts *)

Inductive Status := Uploading | Processing | Completed | Failed.
Inductive CallbackStatus := CbPending | CbCompleted | CbFailed.
Inductive UploadType := Direct | Tus.

#[global] Instance Status_eq_dec : EqDecision Status.
Proof. solve_decision. Defined.
#[global] Instance CallbackStatus_eq_dec : EqDecision CallbackStatus.
Proof. solve_decision. Defined.
#[global] Instance UploadType_eq_dec : EqDecision UploadType.
Proof. solve_decision. Defined.

Definition Status_eqb (a b : Status) : bool := bool_decide (a = b).
Definition CallbackStatus_eqb (a b : CallbackStatus) : bool := bool_decide (a = b).

(** Dates are kept as instants on an integer clock; the field [id] is
    [rec_id] here. *)
Record VideoRecord := mkVideoRecord {
  rec_id : string;
  filename : string;
  status : Status;
  progress : Z;
  streamUrl : option string;
  thumbnailUrl : option string;
  createdAt : Z;
  completedAt : option Z;
  error : option string;
  packager : option string;
  callbackUrl : option string;
  callbackStatus : CallbackStatus;
  callbackRetryCount : Z;
  callbackLastAttempt : option Z;
  s3Path : option string;
  uploadToS3 : bool;
  mp4Url : option string;
  uploadType : UploadType
}.

(** One key of a [Partial<VideoRecord>] object literal.  An optional column
    can be present with the value [undefined] ([SetError None]).  The keys
    [id] and [createdAt] are never passed by the sources and are not written
    by the UPDATE statement. *)
Inductive FieldUpdate :=
| SetFilename (v : string)
| SetStatus (v : Status)
| SetProgress (v : Z)
| SetStreamUrl (v : option string)
| SetThumbnailUrl (v : option string)
| SetCompletedAt (v : option Z)
| SetError (v : option string)
| SetPackager (v : option string)
| SetCallbackUrl (v : option string)
| SetCallbackStatus (v : CallbackStatus)
| SetCallbackRetryCount (v : Z)
| SetCallbackLastAttempt (v : option Z)
| SetS3Path (v : option string)
| SetUploadToS3 (v : bool)
| SetMp4Url (v : option string)
| SetUploadType (v : UploadType).

Definition applyField (r : VideoRecord) (u : FieldUpdate) : VideoRecord :=
  match u with
  | SetFilename v =>
      mkVideoRecord (rec_id r) v (status r) (progress r) (streamUrl r) (thumbnailUrl r)
        (createdAt r) (completedAt r) (error r) (packager r) (callbackUrl r)
        (callbackStatus r) (callbackRetryCount r) (callbackLastAttempt r) (s3Path r)
        (uploadToS3 r) (mp4Url r) (uploadType r)
  | SetStatus v =>
      mkVideoRecord (rec_id r) (filename r) v (progress r) (streamUrl r) (thumbnailUrl r)
        (createdAt r) (completedAt r) (error r) (packager r) (callbackUrl r)
        (callbackStatus r) (callbackRetryCount r) (callbackLastAttempt r) (s3Path r)
        (uploadToS3 r) (mp4Url r) (uploadType r)
  | SetProgress v =>
      mkVideoRecord (rec_id r) (filename r) (status r) v (streamUrl r) (thumbnailUrl r)
        (createdAt r) (completedAt r) (error r) (packager r) (callbackUrl r)
        (callbackStatus r) (callbackRetryCount r) (callbackLastAttempt r) (s3Path r)
        (uploadToS3 r) (mp4Url r) (uploadType r)
  | SetStreamUrl v =>
      mkVideoRecord (rec_id r) (filename r) (status r) (progress r) v (thumbnailUrl r)
        (createdAt r) (completedAt r) (error r) (packager r) (callbackUrl r)
        (callbackStatus r) (callbackRetryCount r) (callbackLastAttempt r) (s3Path r)
        (uploadToS3 r) (mp4Url r) (uploadType r)
  | SetThumbnailUrl v =>
      mkVideoRecord (rec_id r) (filename r) (status r) (progress r) (streamUrl r) v
        (createdAt r) (completedAt r) (error r) (packager r) (callbackUrl r)
        (callbackStatus r) (callbackRetryCount r) (callbackLastAttempt r) (s3Path r)
        (uploadToS3 r) (mp4Url r) (uploadType r)
  | SetCompletedAt v =>
      mkVideoRecord (rec_id r) (filename r) (status r) (progress r) (streamUrl r) (thumbnailUrl r)
        (createdAt r) v (error r) (packager r) (callbackUrl r)
        (callbackStatus r) (callbackRetryCount r) (callbackLastAttempt r) (s3Path r)
        (uploadToS3 r) (mp4Url r) (uploadType r)
  | SetError v =>
      mkVideoRecord (rec_id r) (filename r) (status r) (progress r) (streamUrl r) (thumbnailUrl r)
        (createdAt r) (completedAt r) v (packager r) (callbackUrl r)
        (callbackStatus r) (callbackRetryCount r) (callbackLastAttempt r) (s3Path r)
        (uploadToS3 r) (mp4Url r) (uploadType r)
  | SetPackager v =>
      mkVideoRecord (rec_id r) (filename r) (status r) (progress r) (streamUrl r) (thumbnailUrl r)
        (createdAt r) (completedAt r) (error r) v (callbackUrl r)
        (callbackStatus r) (callbackRetryCount r) (callbackLastAttempt r) (s3Path r)
        (uploadToS3 r) (mp4Url r) (uploadType r)
  | SetCallbackUrl v =>
      mkVideoRecord (rec_id r) (filename r) (status r) (progress r) (streamUrl r) (thumbnailUrl r)
        (createdAt r) (completedAt r) (error r) (packager r) v
        (callbackStatus r) (callbackRetryCount r) (callbackLastAttempt r) (s3Path r)
        (uploadToS3 r) (mp4Url r) (uploadType r)
  | SetCallbackStatus v =>
      mkVideoRecord (rec_id r) (filename r) (status r) (progress r) (streamUrl r) (thumbnailUrl r)
        (createdAt r) (completedAt r) (error r) (packager r) (callbackUrl r)
        v (callbackRetryCount r) (callbackLastAttempt r) (s3Path r)
        (uploadToS3 r) (mp4Url r) (uploadType r)
  | SetCallbackRetryCount v =>
      mkVideoRecord (rec_id r) (filename r) (status r) (progress r) (streamUrl r) (thumbnailUrl r)
        (createdAt r) (completedAt r) (error r) (packager r) (callbackUrl r)
        (callbackStatus r) v (callbackLastAttempt r) (s3Path r)
        (uploadToS3 r) (mp4Url r) (uploadType r)
  | SetCallbackLastAttempt v =>
      mkVideoRecord (rec_id r) (filename r) (status r) (progress r) (streamUrl r) (thumbnailUrl r)
        (createdAt r) (completedAt r) (error r) (packager r) (callbackUrl r)
        (callbackStatus r) (callbackRetryCount r) v (s3Path r)
        (uploadToS3 r) (mp4Url r) (uploadType r)
  | SetS3Path v =>
      mkVideoRecord (rec_id r) (filename r) (status r) (progress r) (streamUrl r) (thumbnailUrl r)
        (createdAt r) (completedAt r) (error r) (packager r) (callbackUrl r)
        (callbackStatus r) (callbackRetryCount r) (callbackLastAttempt r) v
        (uploadToS3 r) (mp4Url r) (uploadType r)
  | SetUploadToS3 v =>
      mkVideoRecord (rec_id r) (filename r) (status r) (progress r) (streamUrl r) (thumbnailUrl r)
        (createdAt r) (completedAt r) (error r) (packager r) (callbackUrl r)
        (callbackStatus r) (callbackRetryCount r) (callbackLastAttempt r) (s3Path r)
        v (mp4Url r) (uploadType r)
  | SetMp4Url v =>
      mkVideoRecord (rec_id r) (filename r) (status r) (progress r) (streamUrl r) (thumbnailUrl r)
        (createdAt r) (completedAt r) (error r) (packager r) (callbackUrl r)
        (callbackStatus r) (callbackRetryCount r) (callbackLastAttempt r) (s3Path r)
        (uploadToS3 r) v (uploadType r)
  | SetUploadType v =>
      mkVideoRecord (rec_id r) (filename r) (status r) (progress r) (streamUrl r) (thumbnailUrl r)
        (createdAt r) (completedAt r) (error r) (packager r) (callbackUrl r)
        (callbackStatus r) (callbackRetryCount r) (callbackLastAttempt r) (s3Path r)
        (uploadToS3 r) (mp4Url r) v
  end.

(** [{ ...record, ...updates }]: later keys win. *)
Definition spread (r : VideoRecord) (updates : list FieldUpdate) : VideoRecord :=
  fold_left applyField updates r.

(** [updates.status]: the value of the key [status] of the literal, if any. *)
Fixpoint updatesStatus (updates : list FieldUpdate) : option Status :=
  match updates with
  | [] => None
  | SetStatus v :: rest =>
      match updatesStatus rest with
      | Some w => Some w
      | None => Some v
      end
  | _ :: rest => updatesStatus rest
  end.

(** The values bound by [stmt.run]: falsy optional strings are stored as NULL. *)
Definition toRow (r : VideoRecord) : VideoRecord :=
  mkVideoRecord (rec_id r) (filename r) (status r) (progress r)
    (orNull (streamUrl r)) (orNull (thumbnailUrl r))
    (createdAt r) (completedAt r) (orNull (error r)) (orNull (packager r))
    (orNull (callbackUrl r)) (callbackStatus r) (callbackRetryCount r)
    (callbackLastAttempt r) (orNull (s3Path r)) (uploadToS3 r)
    (orNull (mp4Url r)) (uploadType r).

(** The table [videos], keyed by its primary key. *)
Abbreviation Store := (gmap string VideoRecord).

Definition getVideoRecord (db : Store) (id : string) : option VideoRecord :=
  db !! id.

(** The object [updatedRecord] built by [updateVideoRecord]. *)
Definition mergeUpdates (now : Z) (record : VideoRecord)
    (updates : list FieldUpdate) : VideoRecord :=
  let merged := spread record updates in
  if bool_decide (updatesStatus updates = Some Completed)
  then applyField merged (SetCompletedAt (Some now))
  else merged.

(** [updateVideoRecord]: the UPDATE rewrites every column but [id] and
    [createdAt] of the row [id]; the merged object is what is returned. *)
Definition updateVideoRecord (now : Z) (db : Store) (id : string)
    (updates : list FieldUpdate) : Store * option VideoRecord :=
  match getVideoRecord db id with
  | None => (db, None)
  | Some record =>
      let updatedRecord := mergeUpdates now record updates in
      (<[id := toRow updatedRecord]> db, Some updatedRecord)
  end.

(** The WHERE clause of the guarded UPDATE. *)
Definition acquirable (r : VideoRecord) : bool :=
  Status_eqb (status r) Uploading
  || Status_eqb (status r) Failed
  || (Status_eqb (status r) Processing && (progress r <=? 10)).

(** [UPDATE videos SET status = 'processing', progress = 10 WHERE id = ? AND (...)];
    the second component is [result.changes]. *)
Definition runGuardedUpdate (db : Store) (id : string) : Store * Z :=
  match db !! id with
  | Some r =>
      if acquirable r
      then (<[id := applyField (applyField r (SetStatus Processing)) (SetProgress 10)]> db, 1)
      else (db, 0)
  | None => (db, 0)
  end.

Record TransitionResult := mkTransition {
  success : bool;
  record : option VideoRecord
}.

Definition safelyTransitionToProcessing (db : Store) (id : string)
    : Store * TransitionResult :=
  match getVideoRecord db id with
  | None => (db, mkTransition false None)
  | Some currentRecord =>
      if Status_eqb (status currentRecord) Completed
      then (db, mkTransition false (Some currentRecord))
      else if Status_eqb (status currentRecord) Processing && (10 <? progress currentRecord)
      then (db, mkTransition false (Some currentRecord))
      else
        let '(db', changes) := runGuardedUpdate db id in
        if 0 <? changes
        then (db', mkTransition true (getVideoRecord db' id))
        else (db', mkTransition false (getVideoRecord db' id))
  end.

(** [createVideoRecord]: defaults overridden by [data]; the INSERT fails on
    a primary-key conflict ([None]). *)
Definition createVideoRecord (now : Z) (db : Store) (id : string)
    (data : list FieldUpdate) : option (Store * VideoRecord) :=
  let defaults :=
    mkVideoRecord id EmptyString Uploading 0 None None now None None None None
      CbPending 0 None None false None Tus in
  let record := spread defaults data in
  match db !! id with
  | Some _ => None
  | None => Some (<[id := toRow record]> db, record)
  end.

Definition pendingCallback (r : VideoRecord) : bool :=
  bool_decide (is_Some (callbackUrl r))
  && CallbackStatus_eqb (callbackStatus r) CbPending
  && (callbackRetryCount r <? 4)
  && Status_eqb (status r) Completed.

Definition createdBefore (a b : VideoRecord) : Prop := createdAt a <= createdAt b.

#[global] Instance createdBefore_dec a b : Decision (createdBefore a b).
Proof. unfold createdBefore. apply _. Defined.

(** [SELECT * FROM videos WHERE ... ORDER BY createdAt ASC]. *)
Definition getVideosWithPendingCallbacks (db : Store) : list VideoRecord :=
  merge_sort createdBefore (filter (fun r => pendingCallback r = true) (snd <$> map_to_list db)).

(** ** String primitives of the JavaScript runtime

    Strings are byte strings; the primitives below agree with the
    JavaScript ones on ASCII text, which is all the tests of the sources
    compare against. *)

(** [s.includes(needle)] *)
Fixpoint includes (s needle : string) : bool :=
  String.prefix needle s
  || match s with
     | EmptyString => false
     | String _ rest => includes rest needle
     end.

Definition lowerAscii (c : ascii) : ascii :=
  let n := N_of_ascii c in
  if ((65 <=? n) && (n <=? 90))%N then ascii_of_N (n + 32) else c.

(** [s.toLowerCase()] *)
Fixpoint toLowerCase (s : string) : string :=
  match s with
  | EmptyString => EmptyString
  | String c rest => String (lowerAscii c) (toLowerCase rest)
  end.

Definition isWhiteSpace (c : ascii) : bool :=
  let n := N_of_ascii c in
  ((n =? 32) || ((9 <=? n) && (n <=? 13)))%N.

Fixpoint trimStart (s : string) : string :=
  match s with
  | String c rest => if isWhiteSpace c then trimStart rest else s
  | EmptyString => EmptyString
  end.

Fixpoint trimEnd (s : string) : string :=
  match s with
  | EmptyString => EmptyString
  | String c rest =>
      match trimEnd rest with
      | EmptyString => if isWhiteSpace c then EmptyString else String c EmptyString
      | rest' => String c rest'
      end
  end.

(** [s.trim()] *)
Definition trim (s : string) : string := trimEnd (trimStart s).

(** The character class [[a-zA-Z0-9/_-]]. *)
Definition isPathChar (c : ascii) : bool :=
  let n := N_of_ascii c in
  (((97 <=? n) && (n <=? 122)) || ((65 <=? n) && (n <=? 90))
   || ((48 <=? n) && (n <=? 57)) || (n =? 47) || (n =? 95) || (n =? 45))%N.

Fixpoint allChars (p : ascii -> bool) (s : string) : bool :=
  match s with
  | EmptyString => true
  | String c rest => p c && allChars p rest
  end.

(** [s.match(/^[a-zA-Z0-9/_-]+$/)] as a truth value. *)
Definition matchesS3Path (s : string) : bool :=
  truthy s && allChars isPathChar s.

Definition slash : ascii := ascii_of_N 47.

Fixpoint dropLastSlash (s : string) : string :=
  match s with
  | EmptyString => EmptyString
  | String c EmptyString => if Ascii.eqb c slash then EmptyString else s
  | String c rest => String c (dropLastSlash rest)
  end.

(** [s.replace(/^\/|\/$/g, ...)] with the empty replacement: one slash at
    the start and one at the end are removed. *)
Definition stripSlashes (s : string) : string :=
  match s with
  | String c rest => if Ascii.eqb c slash then dropLastSlash rest else dropLastSlash s
  | EmptyString => EmptyString
  end.

(** [Math.round(n / d)] for integers [n] and a positive [d]. *)
Definition roundDiv (n d : Z) : Z := (2 * n + d) / (2 * d).

(** Template interpolation of an integer. *)
Definition showZ (n : Z) : string := pretty n.

(** ** lib/environments.ts (configuration only; the module is not part of
    the sources, its fields are read as given). [MAX_FILE_SIZE] holds the
    number of bytes [parseSize(ENV.MAX_FILE_SIZE)]. *)
Record Environment := mkEnvironment {
  S3_BUCKET : string;
  S3_ENDPOINT : string;
  VELLUM_HOST : string;
  MAX_FILE_SIZE : Z;
  ALLOWED_FILE_TYPES : list string
}.

Definition MiB : Z := 1024 * 1024.

(** ** lib/validation.ts *)

Record ValidationError := mkValidationError {
  field : string;
  message : string
}.

Record ValidationResult := mkValidationResult {
  isValid : bool;
  errors : list ValidationError
}.

Definition emptyList {A} (l : list A) : bool :=
  match l with
  | [] => true
  | _ => false
  end.

Definition normalizeMimeType (mimeType : string) : string :=
  if String.eqb mimeType "application/mp4" then "video/mp4" else mimeType.

Definition inList (x : string) (l : list string) : bool :=
  existsb (String.eqb x) l.

Section Validation.

Variable ENV : Environment.

(** [mime.lookup] of the mime-types package: the MIME type of a file name,
    or nothing. *)
Variable mime_lookup : string -> option string.

Definition validateFileSize (filesize : Z) : ValidationResult :=
  if filesize <=? 0 then
    mkValidationResult false
      [mkValidationError "filesize" "File size must be a positive number (bytes)"]
  else
    let maxSize := MAX_FILE_SIZE ENV in
    let errors :=
      if maxSize <? filesize then
        let maxSizeMB := roundDiv maxSize MiB in
        let fileSizeMB := roundDiv filesize MiB in
        [mkValidationError "filesize"
           ("File size (" +:+ showZ fileSizeMB +:+ "MB) exceeds maximum allowed size ("
              +:+ showZ maxSizeMB +:+ "MB)")]
      else [] in
    mkValidationResult (emptyList errors) errors.

Definition validateFileType (filename : string) : ValidationResult :=
  if negb (truthy filename) then
    mkValidationResult false
      [mkValidationError "filename" "Filename is required and must be a string"]
  else
    match mime_lookup filename with
    | None =>
        mkValidationResult false
          [mkValidationError "filename" "Could not determine file type from filename"]
    | Some rawMimeType =>
        let mimeType := normalizeMimeType rawMimeType in
        let errors :=
          if negb (inList mimeType (ALLOWED_FILE_TYPES ENV)) then
            [mkValidationError "filename"
               ("File type '" +:+ mimeType +:+ "' is not allowed. Allowed types: "
                  +:+ String.concat ", " (ALLOWED_FILE_TYPES ENV))]
          else [] in
        mkValidationResult (emptyList errors) errors
    end.

Definition validateUpload (filename : string) (filesize : Z) : ValidationResult :=
  let fileTypeResult := validateFileType filename in
  let fileSizeResult := validateFileSize filesize in
  let allErrors :=
    ((if isValid fileTypeResult then [] else errors fileTypeResult)
       ++ (if isValid fileSizeResult then [] else errors fileSizeResult))%list in
  mkValidationResult (emptyList allErrors) allErrors.

Definition formatValidationErrors (errs : list ValidationError) : string :=
  match errs with
  | [e] => message e
  | _ => "Multiple validation errors: " +:+ String.concat "; " (map message errs)
  end.

End Validation.

(** ** Effects: the queue channel, subprocesses, the object store, webhooks *)

(** [VideoProcessingMessage]; the fields shared with [VideoRecord] carry the
    prefix [job]. *)
Record Job := mkJob {
  uploadId : option string;
  filePath : string;
  jobFilename : string;
  jobCallbackUrl : option string;
  jobS3Path : option string;
  jobUploadToS3 : bool
}.

Inductive Payload :=
| CompletedPayload (videoId fname stream thumbnail : string) (mp4 : option string)
| FailedPayload (videoId fname err : string).

(** The four places of the transcoder that run a subprocess. *)
Inductive ExecSite := HlsCommand | ThumbnailCommand | FallbackCommand | Mp4Command.

Inductive Event :=
| EvAck
| EvReject (requeue : bool)
| EvExec (site : ExecSite) (cmd : string)
| EvPut (key : string)
| EvPost (url : string) (payload : Payload)
| EvWrite (id : string) (value : Z)
| EvPublish (job : Job)
| EvCleanup (id : string) (path : string).

(** The mutable state a handler run works on: the table, the local flag
    [messageAcknowledged], and the effects performed so far (oldest first). *)
Record World := mkWorld {
  db : Store;
  messageAcknowledged : bool;
  trace : list Event
}.

Inductive Result (A : Type) :=
| Ok (a : A)
| Thrown (msg : string).

Arguments Ok {A} a.
Arguments Thrown {A} msg.

(** Computations that read and write the world and may throw; the world
    survives a throw, as the effects of a [try] block do. *)
Definition M (A : Type) : Type := World -> Result A * World.

Definition ret {A} (a : A) : M A := fun w => (Ok a, w).

Definition bind {A B} (m : M A) (k : A -> M B) : M B :=
  fun w =>
    match m w with
    | (Ok a, w') => k a w'
    | (Thrown e, w') => (Thrown e, w')
    end.

Definition throw {A} (e : string) : M A := fun w => (Thrown e, w).

Definition tryCatch {A} (m : M A) (h : string -> M A) : M A :=
  fun w =>
    match m w with
    | (Ok a, w') => (Ok a, w')
    | (Thrown e, w') => h e w'
    end.

Declare Scope js_scope.
Delimit Scope js_scope with js.
Notation "x <- m ;; k" := (bind m (fun x => k))
  (at level 100, m at next level, right associativity) : js_scope.
Notation "m ;;; k" := (bind m (fun _ => k))
  (at level 100, right associativity) : js_scope.
Local Open Scope js_scope.

Definition emit (e : Event) : M unit :=
  fun w => (Ok tt, mkWorld (db w) (messageAcknowledged w) (trace w ++ [e])%list).

Definition when (b : bool) (m : M unit) : M unit := if b then m else ret tt.

Definition readRecord (id : string) : M (option VideoRecord) :=
  fun w => (Ok (getVideoRecord (db w) id), w).

(** A call of [updateVideoRecord]; a row that is rewritten leaves its new
    progress value in the trace. *)
Definition updateRecord (now : Z) (id : string) (updates : list FieldUpdate)
    : M (option VideoRecord) :=
  fun w =>
    let '(db', r) := updateVideoRecord now (db w) id updates in
    let written :=
      match db' !! id, r with
      | Some row, Some _ => [EvWrite id (progress row)]
      | _, _ => []
      end in
    (Ok r, mkWorld db' (messageAcknowledged w) (trace w ++ written)%list).

Definition transition (id : string) : M TransitionResult :=
  fun w =>
    let '(db', r) := safelyTransitionToProcessing (db w) id in
    let written :=
      match success r, db' !! id with
      | true, Some row => [EvWrite id (progress row)]
      | _, _ => []
      end in
    (Ok r, mkWorld db' (messageAcknowledged w) (trace w ++ written)%list).

Definition setAcknowledged : M unit :=
  fun w => (Ok tt, mkWorld (db w) true (trace w)).

Definition isAcknowledged : M bool :=
  fun w => (Ok (messageAcknowledged w), w).

(** [execSync(cmd)]: the command is run; a non-zero exit throws. *)
Definition execSync (site : ExecSite) (ok : bool) (cmd : string) : M unit :=
  emit (EvExec site cmd) ;;;
  if ok then ret tt else throw ("Command failed: " +:+ cmd).

Inductive PostOutcome :=
| Responded (statusCode : Z)
| PostThrew (msg : string).

#[warnings="-register-all"]
Inductive Node :=
| File (name : string)
| Dir (name : string) (children : list Node).

(** ffprobe's JSON, as far as the prober reads it. *)
Record FfStream := mkFfStream {
  codec_type : string;
  codec_name : option string;
  profile : option string;
  level : option string
}.

Record FfprobeOutput := mkFfprobeOutput {
  streams : option (list FfStream);
  format_name : option string
}.

(** What the outside world answers during one handler run. *)
Record Env := mkEnv {
  channelOpen : bool;          (* [channel.ack] throws on a closed channel *)
  bindThrows : bool;           (* binding a non-string [uploadId] raises *)
  clock : Z;                   (* [new Date()] *)
  mkdirOk : bool;
  ffprobe : option FfprobeOutput;  (* [None]: ffprobe or JSON.parse failed *)
  hlsOk : bool;
  thumbnailOk : bool;
  playlistExists : bool;
  fallbackOk : bool;
  mp4ConvertOk : bool;
  outputDir : list Node;       (* what [readdir] finds below the work directory *)
  putOk : string -> bool;      (* success of the PUT of a key *)
  webhook : PostOutcome
}.

(** [channel.ack(msg)] *)
Definition channelAck (env : Env) : M unit :=
  if channelOpen env then emit EvAck else throw "Channel closed".

(** A PUT to the object store. *)
Definition putObject (env : Env) (key : string) : M unit :=
  emit (EvPut key) ;;;
  if putOk env key then ret tt else throw ("PutObject failed: " +:+ key).

(** ** controllers/utils/upload-utils.ts: the codec prober *)

Inductive Strategy := Copy | Selective | Reencode.

#[global] Instance Strategy_eq_dec : EqDecision Strategy.
Proof. solve_decision. Defined.

Definition strategyName (s : Strategy) : string :=
  match s with
  | Copy => "copy"
  | Selective => "selective"
  | Reencode => "reencode"
  end.

Record VideoCodecInfo := mkVideoCodecInfo {
  videoCodec : string;
  audioCodec : string;
  videoProfile : option string;
  videoLevel : option string;
  containerFormat : string;
  isHlsCompatible : bool;
  recommendedStrategy : Strategy
}.

Definition hlsProfiles : list string :=
  ["baseline"; "main"; "high"; "constrained baseline"].

(** The test shared by [isCompatibleWithHls] and
    [determineTranscodingStrategy]. *)
Definition videoCompatible (videoCodec : string) (videoProfile : option string) : bool :=
  String.eqb videoCodec "h264"
  && (negb (truthyO videoProfile)
      || match videoProfile with
         | Some p => inList (toLowerCase p) hlsProfiles
         | None => false
         end).

Definition isCompatibleWithHls (videoCodec audioCodec : string)
    (videoProfile : option string) : bool :=
  let isVideoCompatible := videoCompatible videoCodec videoProfile in
  let isAudioCompatible := String.eqb audioCodec "aac" in
  isVideoCompatible && isAudioCompatible.

Definition determineTranscodingStrategy (videoCodec audioCodec : string)
    (videoProfile : option string) : Strategy :=
  let isVideoH264Compatible := videoCompatible videoCodec videoProfile in
  let isAudioAacCompatible := String.eqb audioCodec "aac" in
  if isVideoH264Compatible && isAudioAacCompatible then Copy
  else if isVideoH264Compatible && negb isAudioAacCompatible then Selective
  else Reencode.

(** [x] or the empty string. *)
Definition orEmpty (o : option string) : string :=
  match o with
  | Some s => s
  | None => EmptyString
  end.

Definition findStream (kind : string) (out : FfprobeOutput) : option FfStream :=
  match streams out with
  | Some l => List.find (fun s => String.eqb (codec_type s) kind) l
  | None => None
  end.

Definition probeVideoCodecs (env : Env) : M VideoCodecInfo :=
  match ffprobe env with
  | None => throw "Failed to probe video codecs"
  | Some data =>
      let videoStream := findStream "video" data in
      let audioStream := findStream "audio" data in
      let videoCodec := from_option (fun s => orEmpty (codec_name s)) EmptyString videoStream in
      let videoProfile := from_option (fun s => orEmpty (profile s)) EmptyString videoStream in
      let videoLevel := from_option (fun s => orEmpty (level s)) EmptyString videoStream in
      let audioCodec := from_option (fun s => orEmpty (codec_name s)) EmptyString audioStream in
      let containerFormat := orEmpty (format_name data) in
      ret (mkVideoCodecInfo videoCodec audioCodec (Some videoProfile) (Some videoLevel)
             containerFormat
             (isCompatibleWithHls videoCodec audioCodec (Some videoProfile))
             (determineTranscodingStrategy videoCodec audioCodec (Some videoProfile)))
  end.

(** The object assigned in the [catch] of the probe in [transcodeAndUpload]. *)
Definition unknownCodecInfo : VideoCodecInfo :=
  mkVideoCodecInfo "unknown" "unknown" None None "unknown" false Reencode.

Definition dquote : string := String (ascii_of_N 34) EmptyString.

(** A path between double quotes, as the command lines are built. *)
(** The probe of [transcodeAndUpload] with its [catch]. *)
Definition probeOrUnknown (env : Env) : M VideoCodecInfo :=
  tryCatch (probeVideoCodecs env) (fun _ => ret unknownCodecInfo).

Definition quoted (s : string) : string := dquote +:+ s +:+ dquote.

(** ** controllers/utils/upload-utils.ts: the transcoder *)

Definition buildOptimizedFFmpegCommand (strategy : Strategy)
    (inputPath outputPath : string) : string :=
  let baseParams := "-start_number 0 -hls_time 3 -hls_list_size 0 -f hls" in
  match strategy with
  | Copy =>
      "ffmpeg -i " +:+ quoted inputPath +:+ " -c copy " +:+ baseParams
        +:+ " " +:+ quoted outputPath
  | Selective =>
      "ffmpeg -i " +:+ quoted inputPath +:+ " -c:v copy -c:a aac -b:a 128k "
        +:+ baseParams +:+ " " +:+ quoted outputPath
  | Reencode =>
      "ffmpeg -i " +:+ quoted inputPath
        +:+ " -c:v libx264 -preset medium -crf 23 -c:a aac -b:a 128k "
        +:+ baseParams +:+ " " +:+ quoted outputPath
  end.

Definition thumbnailCommand (localPath thumbnailPath : string) : string :=
  "ffmpeg -y -i " +:+ quoted localPath +:+ " -ss 00:00:01.000 -vframes 1 -q:v 2 "
    +:+ quoted thumbnailPath.

Definition mp4Command (inputPath outputPath : string) : string :=
  "ffmpeg -i " +:+ quoted inputPath
    +:+ " -c:v libx264 -preset medium -crf 23 -c:a aac -b:a 128k -movflags +faststart -y "
    +:+ quoted outputPath.

(** The key prefix computed (three times over) from an optional custom path. *)
Definition s3PrefixOf (s3Path : option string) (name : string) : string :=
  match s3Path with
  | Some p => if truthy p then stripSlashes p +:+ "/" +:+ name else name
  | None => name
  end.

Definition playlistUrl (ENV : Environment) (s3Prefix : string) : string :=
  S3_BUCKET ENV +:+ "." +:+ S3_ENDPOINT ENV +:+ "/" +:+ s3Prefix +:+ "/index.m3u8".

(** The work directory, relative to [process.cwd()]. *)
Definition workDir (name : string) : string := "controllers/videos/" +:+ name.

Fixpoint countFiles (l : list Node) : Z :=
  match l with
  | [] => 0
  | File _ :: rest => 1 + countFiles rest
  | Dir _ _ :: rest => countFiles rest
  end.

Section Transcoder.

Variable ENV : Environment.

(** [path.parse(filename).name] of Node's path module. *)
Variable path_parse_name : string -> string.

(** [Math.floor((uploadedCount / totalFiles) * 15)], computed by the
    runtime in double precision. *)
Variable floorShare15 : Z -> Z -> Z.

Definition setProgress (env : Env) (uploadId : string) (p : Z) : M unit :=
  when (truthy uploadId) (updateRecord (clock env) uploadId [SetProgress p] ;;; ret tt).

(** One entry of a directory listing.  The members of a batch are taken in
    listing order; [uploadedCount] and [totalFiles] are those of the
    enclosing call of [uploadFile]. *)
Fixpoint uploadEntry (env : Env) (uploadId : string) (totalFiles : Z)
    (prefix : string) (n : Node) (uploadedCount : Z) {struct n} : M Z :=
  match n with
  | File file =>
      putObject env (prefix +:+ "/" +:+ file) ;;;
      let uploadedCount' := uploadedCount + 1 in
      when (truthy uploadId && (10 <? totalFiles) && (uploadedCount' mod 5 =? 0))
        (updateRecord (clock env) uploadId
           [SetProgress (Z.min (floorShare15 uploadedCount' totalFiles + 80) 95)] ;;; ret tt) ;;;
      ret uploadedCount'
  | Dir file children =>
      (fix walk (l : list Node) (count : Z) {struct l} : M unit :=
         match l with
         | [] => ret tt
         | x :: rest =>
             c <- uploadEntry env uploadId (countFiles children)
                    (prefix +:+ "/" +:+ file) x count ;;
             walk rest c
         end) children 0 ;;;
      ret uploadedCount
  end.

Fixpoint uploadEntries (env : Env) (uploadId : string) (totalFiles : Z)
    (prefix : string) (l : list Node) (uploadedCount : Z) : M unit :=
  match l with
  | [] => ret tt
  | x :: rest =>
      c <- uploadEntry env uploadId totalFiles prefix x uploadedCount ;;
      uploadEntries env uploadId totalFiles prefix rest c
  end.

Definition uploadFile (env : Env) (files : list Node) (prefix uploadId : string) : M unit :=
  uploadEntries env uploadId (countFiles files) prefix files 0.

Definition convertToMp4 (env : Env) (inputPath outputPath uploadId : string) : M unit :=
  tryCatch
    (execSync Mp4Command (mp4ConvertOk env) (mp4Command inputPath outputPath) ;;;
     setProgress env uploadId 70)
    (fun _ => throw "Failed to convert video to MP4").

Definition uploadMp4ToS3 (env : Env) (filePath s3Key uploadId : string) : M string :=
  tryCatch
    (putObject env s3Key ;;;
     setProgress env uploadId 85 ;;;
     ret (S3_BUCKET ENV +:+ "." +:+ S3_ENDPOINT ENV +:+ "/" +:+ s3Key))
    (fun _ => throw "Failed to upload MP4 to S3").

(** The first block of [transcodeAndUpload]: the result is the value
    returned early, if any. *)
Definition recheckRecord (env : Env) (uploadId : string) : M (option string) :=
  if truthy uploadId then
    currentRecord <- readRecord uploadId ;;
    match currentRecord with
    | Some r =>
        if Status_eqb (status r) Completed then ret (Some (orEmpty (streamUrl r)))
        else if Status_eqb (status r) Failed then
          updateRecord (clock env) uploadId
            [SetStatus Processing; SetProgress 25; SetError None] ;;;
          ret None
        else ret None
    | None => ret None
    end
  else ret None.

(** The [try] block around the HLS command, the thumbnail and the check of
    the playlist. *)
Definition hlsBlock (env : Env) (localPath outputDir uploadId cmd : string) : M unit :=
  execSync HlsCommand (hlsOk env) cmd ;;;
  setProgress env uploadId 60 ;;;
  execSync ThumbnailCommand (thumbnailOk env) (thumbnailCommand localPath (outputDir +:+ "/thumbnail.jpg")) ;;;
  setProgress env uploadId 75 ;;;
  if playlistExists env then ret tt
  else throw ("Master playlist file not found at " +:+ outputDir +:+ "/index.m3u8").

(** Its [catch] block. *)
Definition hlsFallback (env : Env) (strategy : Strategy) (localPath outputPath : string)
    : M unit :=
  match strategy with
  | Copy | Selective =>
      tryCatch
        (execSync FallbackCommand (fallbackOk env) (buildOptimizedFFmpegCommand Reencode localPath outputPath))
        (fun _ => throw "Failed to transcode video with both stream copy and re-encoding")
  | Reencode => throw ("Failed to transcode video with " +:+ strategyName strategy)
  end.

(** The block guarded by [uploadToS3]; its failures are swallowed. *)
Definition mp4Block (env : Env) (codecInfo : VideoCodecInfo)
    (localPath outputDir s3Prefix uploadId : string) : M unit :=
  tryCatch
    (mp4FilePath <-
       (if includes (containerFormat codecInfo) "mp4" then ret localPath
        else
          convertToMp4 env localPath (outputDir +:+ "/video.mp4") uploadId ;;;
          ret (outputDir +:+ "/video.mp4")) ;;
     mp4Url <- uploadMp4ToS3 env mp4FilePath (s3Prefix +:+ "/video.mp4") uploadId ;;
     when (truthy uploadId)
       (updateRecord (clock env) uploadId [SetMp4Url (Some mp4Url)] ;;; ret tt))
    (fun _ => ret tt).

(** From the final re-check of the record to the returned URL. *)
Definition publishBlock (env : Env) (codecInfo : VideoCodecInfo)
    (s3Prefix uploadId : string) : M string :=
  early <- (if truthy uploadId then
              currentRecord <- readRecord uploadId ;;
              match currentRecord with
              | Some r =>
                  if Status_eqb (status r) Completed
                  then ret (Some (orEmpty (streamUrl r)))
                  else ret None
              | None => ret None
              end
            else ret None) ;;
  match early with
  | Some url => ret url
  | None =>
      setProgress env uploadId
        (if bool_decide (recommendedStrategy codecInfo = Copy) then 85 else 80) ;;;
      uploadFile env (outputDir env) s3Prefix uploadId ;;;
      setProgress env uploadId 95 ;;;
      putObject env (s3Prefix +:+ "/metadata.json") ;;;
      ret (playlistUrl ENV s3Prefix)
  end.

Definition transcodeAndUpload (env : Env) (localPath filename uploadId : string)
    (s3Path : option string) (uploadToS3 : bool) : M string :=
  let name := if truthy uploadId then uploadId else path_parse_name filename in
  early <- recheckRecord env uploadId ;;
  match early with
  | Some url => ret url
  | None =>
      let s3Prefix := s3PrefixOf s3Path name in
      let outputDir := workDir name in
      (if mkdirOk env then ret tt else throw "mkdir failed") ;;;
      setProgress env uploadId 25 ;;;
      codecInfo <- probeOrUnknown env ;;
      let outputPath := outputDir +:+ "/index.m3u8" in
      let cmd := buildOptimizedFFmpegCommand (recommendedStrategy codecInfo)
                   localPath outputPath in
      tryCatch (hlsBlock env localPath outputDir uploadId cmd)
        (fun _ => hlsFallback env (recommendedStrategy codecInfo) localPath outputPath) ;;;
      when uploadToS3 (mp4Block env codecInfo localPath outputDir s3Prefix uploadId) ;;;
      publishBlock env codecInfo s3Prefix uploadId
  end.

(** ** workers/videoProcessor.ts *)

(** What [JSON.parse(msg.content.toString())] makes of a delivery. A parsed
    value without a usable [uploadId] is a [Job] whose [uploadId] is [None]. *)
Inductive Delivery :=
| Unparseable
| ParsedFalsy
| ParsedJob (job : Job).

Definition cleanupVideoFiles (uploadId originalFilePath : string) : M unit :=
  emit (EvCleanup uploadId originalFilePath).

Definition post (env : Env) (url : string) (payload : Payload) : M Z :=
  emit (EvPost url payload) ;;;
  match webhook env with
  | Responded statusCode => ret statusCode
  | PostThrew msg => throw msg
  end.

(** The webhook attempt, written twice in the source with the two payloads. *)
Definition sendWebhook (env : Env) (id url : string) (payload : Payload) : M unit :=
  tryCatch
    (statusCode <- post env url payload ;;
     if statusCode =? 200 then
       updateRecord (clock env) id
         [SetCallbackStatus CbCompleted; SetCallbackLastAttempt (Some (clock env))] ;;;
       ret tt
     else
       updateRecord (clock env) id
         [SetCallbackRetryCount 1; SetCallbackLastAttempt (Some (clock env))] ;;;
       ret tt)
    (fun _ =>
       updateRecord (clock env) id
         [SetCallbackRetryCount 1; SetCallbackLastAttempt (Some (clock env))] ;;;
       ret tt).

Definition ackMessage (env : Env) : M unit :=
  channelAck env ;;; setAcknowledged.

(** The store operations of the worker on the [uploadId] of a job. *)
Definition transitionJob (env : Env) (job : Job) : M TransitionResult :=
  match uploadId job with
  | Some id => transition id
  | None =>
      if bindThrows env then throw "SQLite3 can only bind numbers, strings, bigints, buffers, and null"
      else ret (mkTransition false None)
  end.

Definition processJob (env : Env) (job : Job) (id : string) : M unit :=
  streamUrl <- transcodeAndUpload env (filePath job) (jobFilename job) id
                 (jobS3Path job) (jobUploadToS3 job) ;;
  let s3Prefix := s3PrefixOf (jobS3Path job) id in
  let thumbnailUrl :=
    S3_BUCKET ENV +:+ "." +:+ S3_ENDPOINT ENV +:+ "/" +:+ s3Prefix +:+ "/thumbnail.jpg" in
  updatedRecord <- updateRecord (clock env) id
                     [SetStatus Completed; SetProgress 100;
                      SetStreamUrl (Some streamUrl); SetThumbnailUrl (Some thumbnailUrl)] ;;
  cleanupVideoFiles id (filePath job) ;;;
  match jobCallbackUrl job, updatedRecord with
  | Some url, Some r =>
      when (truthy url)
        (sendWebhook env id url
           (CompletedPayload id (jobFilename job) streamUrl thumbnailUrl
              (orNull (mp4Url r))))
  | _, _ => ret tt
  end.

(** The [try] block of the consumer callback. *)
Definition tryBlock (env : Env) (d : Delivery) : M unit :=
  match d with
  | Unparseable => throw "Unexpected token in JSON"
  | ParsedFalsy => ackMessage env
  | ParsedJob job =>
      transitionResult <- transitionJob env job ;;
      if negb (success transitionResult) then ackMessage env
      else
        ackMessage env ;;;
        match uploadId job with
        | Some id => processJob env job id
        | None => ret tt
        end
  end.

(** The second half of the [catch] block of the consumer callback: the
    record is marked failed and the failure is reported. *)
Definition reportFailure (env : Env) (d : Delivery) (errorMessage : string) : M unit :=
  tryCatch
    (match d with
     | Unparseable => throw "Unexpected token in JSON"
     | ParsedFalsy => ret tt
     | ParsedJob job =>
         match uploadId job with
         | None =>
             if bindThrows env
             then throw "SQLite3 can only bind numbers, strings, bigints, buffers, and null"
             else throw "The path argument must be of type string"
         | Some id =>
             updatedRecord <- updateRecord (clock env) id
                                [SetStatus Failed; SetError (Some errorMessage)] ;;
             cleanupVideoFiles id (filePath job) ;;;
             match jobCallbackUrl job, updatedRecord with
             | Some url, Some _ =>
                 when (truthy url)
                   (sendWebhook env id url
                      (FailedPayload id (jobFilename job) errorMessage))
             | _, _ => ret tt
             end
         end
     end)
    (fun _ => ret tt).

(** The [catch] block of the consumer callback. *)
Definition catchBlock (env : Env) (d : Delivery) (errorMessage : string) : M unit :=
  acknowledged <- isAcknowledged ;;
  when (negb acknowledged) (tryCatch (ackMessage env) (fun _ => ret tt)) ;;;
  reportFailure env d errorMessage.

(** The callback passed to [channel.consume], for a delivered message. *)
Definition consume (env : Env) (d : Delivery) : M unit :=
  fun w =>
    tryCatch (tryBlock env d) (catchBlock env d)
      (mkWorld (db w) false (trace w)).

(** One delivery, started on a table with an empty trace. *)
Definition deliver (env : Env) (d : Delivery) (table : Store) : World :=
  snd (consume env d (mkWorld table false [])).

(** Successive deliveries, each with its own answers of the outside world:
    the table they leave and the events of all of them. *)
Fixpoint deliverAll (ds : list (Env * Delivery)) (table : Store) : Store * list Event :=
  match ds with
  | [] => (table, [])
  | (env, d) :: rest =>
      let w := deliver env d table in
      let '(table', evs) := deliverAll rest (db w) in
      (table', (trace w ++ evs)%list)
  end.

End Transcoder.

(** ** controllers/video.Controller.ts *)

Record CreateRequest := mkCreateRequest {
  reqFilename : string;
  reqFilesize : Z;
  reqPackager : string;
  reqCallbackUrl : option string;
  reqS3Path : option string;
  reqUploadToS3 : bool;
  reqType : string
}.

Record SessionData := mkSessionData {
  sessionUploadId : string;
  uploadUrl : string;
  videoUrl : string;
  expiresIn : Z;
  sessionMp4Url : option string
}.

Inductive Response (A : Type) :=
| ErrorResponse (code : Z) (msg : string)
| SuccessResponse (data : A).

Arguments ErrorResponse {A} code msg.
Arguments SuccessResponse {A} data.

(** The file object multer hands to [directUpload]; [path] is
    [destination/tmpName]. *)
Record UploadedFile := mkUploadedFile {
  originalname : string;
  size : Z;
  destination : string;
  tmpName : string
}.

Record DirectData := mkDirectData {
  directUploadId : string;
  directFilename : string
}.

Definition maxDirectUploadSize : Z := 200 * 1024 * 1024.

Definition statusName (s : Status) : string :=
  match s with
  | Uploading => "uploading"
  | Processing => "processing"
  | Completed => "completed"
  | Failed => "failed"
  end.

Definition uploadTypeOf (type : string) : UploadType :=
  if String.eqb type "direct" then Direct else Tus.

Section Controller.

Variable ENV : Environment.
Variable mime_lookup : string -> option string.

(** The validation of [createVideoUpload] up to the first 400 answer it
    can give: [inl] is that answer, [inr] the result tested next. *)
Definition sessionValidation (filename : string) (filesize : Z) (type : string)
    : string + ValidationResult :=
  if String.eqb type "direct" then
    if maxDirectUploadSize <? filesize then
      let maxSizeMB := roundDiv maxDirectUploadSize MiB in
      let fileSizeMB := roundDiv filesize MiB in
      inl ("File size (" +:+ showZ fileSizeMB
             +:+ "MB) exceeds maximum allowed size for direct uploads ("
             +:+ showZ maxSizeMB +:+ "MB)")
    else
      let validationResult := validateUpload ENV mime_lookup filename filesize in
      if isValid validationResult then inr validationResult
      else
        let nonSizeErrors :=
          List.filter (fun e => negb (includes (message e) "File size"))
            (errors validationResult) in
        if emptyList nonSizeErrors then inr (mkValidationResult true [])
        else inr (mkValidationResult false nonSizeErrors)
  else inr (validateUpload ENV mime_lookup filename filesize).

(** [cleanS3Path] *)
Definition cleanS3PathOf (s3Path : option string) : option string :=
  match s3Path with
  | Some p => if truthy p then Some (trim p) else Some p
  | None => None
  end.

Definition createVideoUpload (uuid : string) (now : Z) (req : CreateRequest)
    (table : Store) : Store * Response SessionData :=
  let filename := reqFilename req in
  let filesize := reqFilesize req in
  let type := reqType req in
  if negb (truthy filename) || (filesize =? 0) then
    (table, ErrorResponse 400 "Missing required fields: filename and filesize")
  else
    match sessionValidation filename filesize type with
    | inl msg => (table, ErrorResponse 400 msg)
    | inr validationResult =>
        if negb (isValid validationResult) then
          (table, ErrorResponse 400 (formatValidationErrors (errors validationResult)))
        else if truthy type && negb (inList type ["direct"; "tus"]) then
          (table, ErrorResponse 400 "type must be either 'direct' or 'tus'")
        else
          let cleanS3Path := cleanS3PathOf (reqS3Path req) in
          if truthyO cleanS3Path && negb (matchesS3Path (orEmpty cleanS3Path)) then
            (table, ErrorResponse 400
               "s3Path contains invalid characters. Only alphanumeric, forward slashes, hyphens, and underscores are allowed")
          else
            let uploadId := uuid in
            let uploadUrl :=
              if String.eqb type "direct"
              then VELLUM_HOST ENV +:+ "/api/v1/video/" +:+ uploadId +:+ "/upload"
              else VELLUM_HOST ENV +:+ "/api/v1/tus/files/" +:+ uploadId in
            match createVideoRecord now table uploadId
                    [SetFilename filename; SetStatus Uploading;
                     SetPackager (Some (reqPackager req));
                     SetCallbackUrl (reqCallbackUrl req);
                     SetS3Path cleanS3Path;
                     SetUploadToS3 (reqUploadToS3 req);
                     SetUploadType (uploadTypeOf type)] with
            | None => (table, ErrorResponse 500 "Failed to create upload session")
            | Some (table', _) =>
                let s3Prefix := s3PrefixOf cleanS3Path uploadId in
                let videoUrl := playlistUrl ENV s3Prefix in
                let mp4Url :=
                  if reqUploadToS3 req
                  then Some (S3_BUCKET ENV +:+ "." +:+ S3_ENDPOINT ENV +:+ "/"
                               +:+ s3Prefix +:+ "/video.mp4")
                  else None in
                (table', SuccessResponse (mkSessionData uploadId uploadUrl videoUrl 3600 mp4Url))
            end
    end.

(** [directUpload]; [renameOk] and [publishOk] answer for [fs.renameSync]
    and [publishToQueue]. The third component is the job published. *)
Definition directUpload (now : Z) (renameOk publishOk : bool) (uploadId : string)
    (file : option UploadedFile) (table : Store)
    : Store * Response DirectData * option Job :=
  match file with
  | None => (table, ErrorResponse 400 "No file uploaded", None)
  | Some file =>
      match getVideoRecord table uploadId with
      | None => (table, ErrorResponse 404 "Upload session not found", None)
      | Some videoRecord =>
          if negb (Status_eqb (status videoRecord) Uploading) then
            (table,
             ErrorResponse 409
               ("Upload session is not in uploading state. Current status: "
                  +:+ statusName (status videoRecord)),
             None)
          else
            let name :=
              if truthy (originalname file) then originalname file
              else filename videoRecord in
            let validationResult := validateUpload ENV mime_lookup name (size file) in
            if negb (isValid validationResult) then
              (table, ErrorResponse 400 (formatValidationErrors (errors validationResult)), None)
            else if negb renameOk then
              (table, ErrorResponse 500 "Failed to process uploaded file", None)
            else
              let finalPath := destination file +:+ "/" +:+ uploadId in
              match updateVideoRecord now table uploadId [SetProgress 0; SetFilename name] with
              | (table', None) =>
                  (table', ErrorResponse 500 "Failed to update upload session", None)
              | (table', Some _) =>
                  if negb publishOk then
                    (table', ErrorResponse 500 "Failed to process file upload", None)
                  else
                    (table', SuccessResponse (mkDirectData uploadId name),
                     Some (mkJob (Some uploadId) finalPath name
                             (callbackUrl videoRecord) (s3Path videoRecord)
                             (uploadToS3 videoRecord)))
              end
      end
  end.

(** The job published by [onUploadFinish] of the resumable path. *)
Definition onUploadFinish (now : Z) (uploadId storagePath : string)
    (metadataFilename : option string) (table : Store) : Store * option Job :=
  match getVideoRecord table uploadId with
  | None => (table, None)
  | Some videoRecord =>
      match updateVideoRecord now table uploadId [SetProgress 0] with
      | (table', None) => (table', None)
      | (table', Some _) =>
          (table',
           Some (mkJob (Some uploadId) storagePath
                   (if truthyO metadataFilename then orEmpty metadataFilename
                    else filename videoRecord)
                   (callbackUrl videoRecord) (s3Path videoRecord)
                   (uploadToS3 videoRecord)))
      end
  end.

End Controller.

(** ** Reading traces *)

Definition isAck (e : Event) : bool :=
  match e with
  | EvAck => true
  | _ => false
  end.


(** The webhook POSTs made for the record [id]. *)
Definition isPostFor (id : string) (e : Event) : bool :=
  match e with
  | EvPost _ (CompletedPayload videoId _ _ _ _) => String.eqb videoId id
  | EvPost _ (FailedPayload videoId _ _) => String.eqb videoId id
  | _ => false
  end.

Definition isPost (e : Event) : bool :=
  match e with
  | EvPost _ _ => true
  | _ => false
  end.

(** The commands run for the HLS step: the first attempt and the fallback. *)
Definition isHlsExec (e : Event) : bool :=
  match e with
  | EvExec HlsCommand _ | EvExec FallbackCommand _ => true
  | _ => false
  end.

(** The successive values of the column [progress] of the row [id]. *)
Fixpoint progressWrites (id : string) (t : list Event) : list Z :=
  match t with
  | [] => []
  | EvWrite id' v :: rest =>
      if String.eqb id' id then v :: progressWrites id rest else progressWrites id rest
  | _ :: rest => progressWrites id rest
  end.

Fixpoint nonDecreasing (l : list Z) : bool :=
  match l with
  | x :: (y :: _) as rest => (x <=? y) && nonDecreasing rest
  | _ => true
  end.

(** ** Frames: what a computation can do to the world

    [extends R P w w']: the table and the flag [messageAcknowledged] went
    through a chain of [R]-steps, and the trace grew by events satisfying
    [P]. *)
Definition snapshot (w : World) : Store * bool := (db w, messageAcknowledged w).

Definition extends (R : relation (Store * bool)) (P : Event -> Prop) (w w' : World) : Prop :=
  rtc R (snapshot w) (snapshot w')
  /\ exists evs, trace w' = (trace w ++ evs)%list /\ Forall P evs.

Definition confined (R : relation (Store * bool)) (P : Event -> Prop) {A} (m : M A) : Prop :=
  forall w, extends R P w (m w).2.

Definition countAcks (t : list Event) : nat := length (List.filter isAck t).

Definition hlsExecs (t : list Event) : list Event := List.filter isHlsExec t.

(** The world in which the worker starts [processJob]: the row [id] was
    acquired and the message acknowledged. *)
Definition acquiredWorld (table : Store) (id : string) (r : VideoRecord) : World :=
  mkWorld (<[id := applyField (applyField r (SetStatus Processing)) (SetProgress 10)]> table)
    true [EvWrite id 10; EvAck].

(** The row [id] exists. *)
Definition hasRow (id : string) (table : Store) : Prop := is_Some (table !! id).

Definition payloadVideoId (p : Payload) : string :=
  match p with
  | CompletedPayload videoId _ _ _ _ => videoId
  | FailedPayload videoId _ _ => videoId
  end.

(** The updates made by the worker, those of the transcoder included. *)
Definition workerField (u : FieldUpdate) : bool :=
  match u with
  | SetStatus _ | SetProgress _ | SetError _ | SetMp4Url _
  | SetStreamUrl _ | SetThumbnailUrl _
  | SetCallbackStatus CbCompleted | SetCallbackLastAttempt _ => true
  | SetCallbackRetryCount v => v =? 1
  | _ => false
  end.

(** The events of the processing of the record [id], acknowledgement apart. *)
Definition jobEvent (id : string) (e : Event) : Prop :=
  match e with
  | EvExec _ _ | EvPut _ | EvCleanup _ _ => True
  | EvWrite id' _ => id' = id
  | EvPost _ p => payloadVideoId p = id
  | _ => False
  end.

(** The updates made by [transcodeAndUpload]. *)
Definition transcoderField (u : FieldUpdate) : bool :=
  match u with
  | SetStatus Processing | SetProgress _ | SetError _ | SetMp4Url _ => true
  | _ => false
  end.

(** The events of [transcodeAndUpload] on the record [id]. *)
Definition transcoderEvent (id : string) (e : Event) : Prop :=
  match e with
  | EvExec _ _ | EvPut _ => True
  | EvWrite id' _ => id' = id
  | _ => False
  end.

(** The events after the HLS step. *)
Definition tailEvent (id : string) (e : Event) : Prop :=
  match e with
  | EvExec Mp4Command _ | EvPut _ => True
  | EvWrite id' _ => id' = id
  | _ => False
  end.

(** ** Sample configuration and inputs *)

Definition sampleENV : Environment :=
  mkEnvironment "video-streams" "http://minio:9000" "http://localhost:8001"
    (100 * MiB) ["video/mp4"; "video/avi"; "video/mov"; "video/mkv"].

Fixpoint endsWith (s suffix : string) : bool :=
  String.eqb s suffix
  || match s with
     | EmptyString => false
     | String _ rest => endsWith rest suffix
     end.

(** A few entries of the table behind [mime.lookup]. *)
Definition sampleMimeLookup (filename : string) : option string :=
  if endsWith filename ".mp4" then Some "video/mp4"
  else if endsWith filename ".webm" then Some "video/webm"
  else if endsWith filename ".mkv" then Some "video/x-matroska"
  else None.

(** The part of a file name before its last dot, for names without a
    directory. *)
Fixpoint sampleParseName (s : string) : string :=
  match s with
  | EmptyString => EmptyString
  | String c rest =>
      if includes rest "." then String c (sampleParseName rest)
      else if String.eqb (String c EmptyString) "." then EmptyString
      else String c (sampleParseName rest)
  end.

(** The quotient in exact arithmetic. *)
Definition sampleFloorShare15 (uploadedCount totalFiles : Z) : Z :=
  (uploadedCount * 15) / totalFiles.

Definition sampleRecord (id : string) (st : Status) (p : Z) : VideoRecord :=
  mkVideoRecord id "clip.mp4" st p None None 1000 None None (Some "ffmpeg")
    (Some "https://client.example/hook") CbPending 0 None None false None Tus.

(** An environment in which every external step succeeds; the source is an
    MP4 file with H.264 video and MP3 audio. *)
Definition sampleEnv : Env :=
  mkEnv true false 2000 true
    (Some (mkFfprobeOutput
             (Some [mkFfStream "video" (Some "h264") (Some "High") (Some "40");
                    mkFfStream "audio" (Some "mp3") None None])
             (Some "mov,mp4,m4a,3gp,3g2,mj2")))
    true true true true true
    [File "index.m3u8"; File "index0.ts"; File "index1.ts"; File "thumbnail.jpg"]
    (fun _ => true)
    (Responded 200).

(** The same, for a source that holds a Matroska stream with Vorbis audio. *)
Definition sampleEnvMatroska : Env :=
  mkEnv true false 2000 true
    (Some (mkFfprobeOutput
             (Some [mkFfStream "video" (Some "h264") (Some "High") (Some "40");
                    mkFfStream "audio" (Some "vorbis") None None])
             (Some "matroska,webm")))
    true true true true true
    [File "index.m3u8"; File "index0.ts"; File "index1.ts"; File "thumbnail.jpg";
     File "video.mp4"]
    (fun _ => true)
    (Responded 200).

Definition sampleJob (id : string) (toS3 : bool) : Job :=
  mkJob (Some id) ("uploads/" +:+ id) "clip.mp4" (Some "https://client.example/hook")
    None toS3.



(** ** The codec test in the words of the specification

    [isHlsCompatible] = (video codec = h264 and profile in {baseline, main,
    high, constrained baseline}) and (audio codec = aac). *)
Definition isHlsCompatible_spec (videoCodec audioCodec : string)
    (videoProfile : option string) : bool :=
  (String.eqb videoCodec "h264"
   && match videoProfile with
      | Some p => inList p hlsProfiles
      | None => false
      end)
  && String.eqb audioCodec "aac".

(** The video test of the code, as a proposition. *)
Definition VideoCompatible (videoCodec : string) (videoProfile : option string) : Prop :=
  videoCodec = "h264"
  /\ (truthyO videoProfile = false
      \/ exists p, videoProfile = Some p /\ In (toLowerCase p) hlsProfiles).

(** An H.264/AAC source whose video stream carries no profile. *)
Definition sampleEnvNoProfile : Env :=
  mkEnv true false 2000 true
    (Some (mkFfprobeOutput
             (Some [mkFfStream "video" (Some "h264") None None;
                    mkFfStream "audio" (Some "aac") None None])
             (Some "mov,mp4,m4a,3gp,3g2,mj2")))
    true true true true true
    [File "index.m3u8"; File "index0.ts"; File "thumbnail.jpg"]
    (fun _ => true)
    (Responded 200).

Definition sampleWorld : World := mkWorld ∅ false [].

(** A direct upload of 150 MiB. *)
Definition sampleDirectRequest : CreateRequest :=
  mkCreateRequest "a.mp4" (150 * MiB) "ffmpeg" None None false "direct".

Definition sampleDirectFile : UploadedFile :=
  mkUploadedFile "a.mp4" (150 * MiB) "uploads" "0f3a9c".

(** ** Invariants of the table used below *)

(** The row [id], if any, is not completed. *)
Definition notCompleted (id : string) (table : Store) : Prop :=
  forall r, table !! id = Some r -> status r <> Completed.

(** Steps that keep a property of the table. *)
Definition keeps (I : Store -> Prop) : relation (Store * bool) :=
  fun x y => I x.1 -> I y.1.

(** A session with a custom prefix. *)
Definition samplePrefixRequest : CreateRequest :=
  mkCreateRequest "clip.mp4" (10 * MiB) "ffmpeg" None (Some " /v2/media/ ") false "tus".

(** The update made after a webhook attempt, by its outcome. *)
Definition callbackUpdates (env : Env) : list FieldUpdate :=
  match webhook env with
  | Responded statusCode =>
      if statusCode =? 200
      then [SetCallbackStatus CbCompleted; SetCallbackLastAttempt (Some (clock env))]
      else [SetCallbackRetryCount 1; SetCallbackLastAttempt (Some (clock env))]
  | PostThrew _ => [SetCallbackRetryCount 1; SetCallbackLastAttempt (Some (clock env))]
  end.

(** An environment whose HLS commands both fail. *)
Definition sampleEnvHlsFails : Env :=
  mkEnv true false 2000 true
    (Some (mkFfprobeOutput
             (Some [mkFfStream "video" (Some "h264") (Some "High") (Some "40");
                    mkFfStream "audio" (Some "aac") None None])
             (Some "mov,mp4,m4a,3gp,3g2,mj2")))
    false true true false true
    []
    (fun _ => true)
    (Responded 500).

(** ** Webhook attempts within a delivery *)

(** The updates of the worker that are not about the callback. *)
Definition jobField (u : FieldUpdate) : bool :=
  match u with
  | SetStatus _ | SetProgress _ | SetError _ | SetMp4Url _
  | SetStreamUrl _ | SetThumbnailUrl _ => true
  | _ => false
  end.

Definition callbackFields (r : VideoRecord) : CallbackStatus * Z * option Z :=
  (callbackStatus r, callbackRetryCount r, callbackLastAttempt r).

(** Steps that leave the callback fields of the row [id] (and its
    existence) as they are. *)
Definition sameCallback (id : string) : relation (Store * bool) :=
  fun x y => callbackFields <$> y.1 !! id = callbackFields <$> x.1 !! id.

(** Steps that touch no other row than [id]. *)
Definition onlyRow (id : string) : relation (Store * bool) :=
  fun x y => forall k, k <> id -> y.1 !! k = x.1 !! k.

Definition noPost (e : Event) : Prop := isPost e = false.

(** [w'] is reached from [w0] by steps without POST, followed by one
    webhook attempt for the existing row [id]. *)
Definition webhookStage (R : relation (Store * bool)) (env : Env) (id : string)
    (w0 w' : World) : Prop :=
  exists w1 url payload r,
    extends R noPost w0 w1
    /\ db w1 !! id = Some r
    /\ payloadVideoId payload = id
    /\ w' = (sendWebhook env id url payload w1).2.

(** What a delivery amounts to: no POST at all, or one webhook attempt at
    its very end. *)
Definition Outcome (R : relation (Store * bool)) (env : Env) (id : string)
    (w0 w' : World) : Prop :=
  extends R noPost w0 w' \/ webhookStage R env id w0 w'.

(** The [uploadId] of a delivery, when it has a usable one. *)
Definition deliveryId (d : Delivery) : option string :=
  match d with
  | ParsedJob job => uploadId job
  | _ => None
  end.

(** No row has more than four recorded callback failures. *)
Definition boundedRetries (table : Store) : Prop :=
  forall id r, table !! id = Some r -> callbackRetryCount r <= 4.

(** The HLS commands fail, the failure webhook is answered with 200. *)
Definition sampleEnvFailureReported : Env :=
  mkEnv true false 2000 true
    (Some (mkFfprobeOutput
             (Some [mkFfStream "video" (Some "h264") (Some "High") (Some "40");
                    mkFfStream "audio" (Some "aac") None None])
             (Some "mov,mp4,m4a,3gp,3g2,mj2")))
    false true true false true
    []
    (fun _ => true)
    (Responded 200).

(** A record whose job and whose webhook are both done. *)
Definition sampleCompletedRecord : VideoRecord :=
  mkVideoRecord "v1" "clip.mp4" Completed 100
    (Some "video-streams.http://minio:9000/v1/index.m3u8")
    (Some "video-streams.http://minio:9000/v1/thumbnail.jpg")
    1000 (Some 2000) None (Some "ffmpeg")
    (Some "https://client.example/hook") CbCompleted 0 (Some 2000) None false None Tus.

(** The channel closes before the acknowledgement. *)
Definition sampleEnvChannelClosed : Env :=
  mkEnv false false 3000 true None true true true true true []
    (fun _ => true) (Responded 200).

(** ** The acknowledgement within a delivery *)


(** ** lib/videoStore.ts: listing and deletion *)

(** [deleteVideoRecord]: the second component is [result.changes > 0]. *)
Definition deleteVideoRecord (db : Store) (id : string) : Store * bool :=
  (delete id db, bool_decide (is_Some (db !! id))).

Definition createdAfter (a b : VideoRecord) : Prop := createdAt b <= createdAt a.

#[global] Instance createdAfter_dec a b : Decision (createdAfter a b).
Proof. unfold createdAfter. apply _. Defined.

(** [SELECT * FROM videos ORDER BY createdAt DESC]. *)
Definition getAllVideos (db : Store) : list VideoRecord :=
  merge_sort createdAfter (snd <$> map_to_list db).


(** ** lib/rabbitmq.ts: the connection loop *)

Inductive RetryEvent :=
| Connect (attempt : nat)
| Sleep (ms : Z).

(** The [for] loop of [connectWithRetry] from iteration [i] on, with
    [remaining] iterations to go; [connects i] tells whether the call of
    [amqp.connect] of iteration [i] resolves.  The result is the iteration
    whose connection is returned, or nothing when the loop ends and the
    function throws. *)
Fixpoint connectLoop (connects : nat -> bool) (delay : Z) (remaining i : nat)
    : option nat * list RetryEvent :=
  match remaining with
  | O => (None, [])
  | S remaining' =>
      if connects i then (Some i, [Connect i])
      else
        let '(r, evs) := connectLoop connects delay remaining' (S i) in
        (r, Connect i :: Sleep delay :: evs)
  end.

Definition connectWithRetry (connects : nat -> bool) (retries : nat) (delay : Z)
    : option nat * list RetryEvent :=
  connectLoop connects delay retries 0.

Definition isSleep (e : RetryEvent) : bool :=
  match e with
  | Sleep _ => true
  | Connect _ => false
  end.

(** ** lib/tusServer.ts: the check made when a resumable upload is created *)

Section Resumable.

Variable ENV : Environment.
Variable mime_lookup : string -> option string.

(** [onUploadCreate]: [uploadId] is [upload.metadata?.uploadId || upload.id],
    [uploadSize] is [upload.size] (absent when the length is deferred) and
    [metadataFilename] is [upload.metadata?.filename].  The upload may start
    when the result is [Ok]. *)
Definition onUploadCreate (uploadId : string) (uploadSize : option Z)
    (metadataFilename : option string) (table : Store) : Result unit :=
  match getVideoRecord table uploadId with
  | None =>
      Thrown "Video record not found. Please create video record first using POST /api/v1/video/create"
  | Some videoRecord =>
      if negb (Status_eqb (status videoRecord) Uploading) then
        Thrown ("Video record is not in uploading state. Current status: "
                  +:+ statusName (status videoRecord))
      else
        match uploadSize, metadataFilename with
        | Some size, Some name =>
            if negb (size =? 0) && truthy name then
              let validationResult := validateUpload ENV mime_lookup name size in
              if negb (isValid validationResult) then
                Thrown ("Upload validation failed: "
                          +:+ formatValidationErrors (errors validationResult))
              else Ok tt
            else Ok tt
        | _, _ => Ok tt
        end
  end.

End Resumable.


(** ** Runs of a job *)

Definition isCleanup (e : Event) : bool :=
  match e with
  | EvCleanup _ _ => true
  | _ => false
  end.

(** The fields of a record that the worker never writes. *)
Definition fixedFields (r : VideoRecord)
    : string * string * Z * bool * UploadType * option string * option string :=
  (rec_id r, filename r, createdAt r, uploadToS3 r, uploadType r,
   orNull (callbackUrl r), orNull (s3Path r)).

(** Steps that leave the fixed fields of every row, and the set of rows, as
    they are. *)
Definition sameFixedFields : relation (Store * bool) :=
  fun x y => forall k, fixedFields <$> y.1 !! k = fixedFields <$> x.1 !! k.





(** * Properties *)

(** ** The record store *)

Lemma Status_eqb_true (a b : Status) : Status_eqb a b = true <-> a = b.
Proof. unfold Status_eqb. apply bool_decide_eq_true. Qed.

Lemma Status_eqb_false (a b : Status) : Status_eqb a b = false <-> a <> b.
Proof. unfold Status_eqb. apply bool_decide_eq_false. Qed.

Lemma acquirable_spec (r : VideoRecord) :
  acquirable r = true <->
  status r = Uploading \/ status r = Failed \/ (status r = Processing /\ progress r <= 10).
Proof.
  unfold acquirable.
  rewrite !orb_true_iff, andb_true_iff, !Status_eqb_true, Z.leb_le.
  tauto.
Qed.

Lemma updateVideoRecord_dom (now : Z) (table : Store) (id : string)
    (updates : list FieldUpdate) :
  dom (updateVideoRecord now table id updates).1 = dom table.
Proof.
  unfold updateVideoRecord, getVideoRecord.
  destruct (table !! id) as [r|] eqn:Hr; simpl; [|done].
  apply dom_insert_lookup_L. by eexists.
Qed.

Lemma runGuardedUpdate_dom (table : Store) (id : string) :
  dom (runGuardedUpdate table id).1 = dom table.
Proof.
  unfold runGuardedUpdate.
  destruct (table !! id) as [r|] eqn:Hr; simpl; [|done].
  destruct (acquirable r); simpl; [|done].
  apply dom_insert_lookup_L. by eexists.
Qed.

Lemma safelyTransitionToProcessing_dom (table : Store) (id : string) :
  dom (safelyTransitionToProcessing table id).1 = dom table.
Proof.
  unfold safelyTransitionToProcessing, getVideoRecord.
  destruct (table !! id) as [r|] eqn:Hr; simpl; [|done].
  destruct (Status_eqb (status r) Completed); simpl; [done|].
  destruct (Status_eqb (status r) Processing && (10 <? progress r)); simpl; [done|].
  pose proof (runGuardedUpdate_dom table id) as Hd.
  destruct (runGuardedUpdate table id) as [table' changes]; simpl in *.
  destruct (0 <? changes); simpl; done.
Qed.

(** The transition on a row that the guard lets through. *)
Lemma safelyTransitionToProcessing_acquired (table : Store) (id : string)
    (r : VideoRecord) :
  table !! id = Some r ->
  acquirable r = true ->
  let r' := applyField (applyField r (SetStatus Processing)) (SetProgress 10) in
  safelyTransitionToProcessing table id
  = (<[id := r']> table, mkTransition true (Some r')).
Proof.
  intros Hr Hacq r'.
  unfold safelyTransitionToProcessing, getVideoRecord. rewrite Hr.
  apply acquirable_spec in Hacq.
  destruct (Status_eqb (status r) Completed) eqn:Hc.
  { apply Status_eqb_true in Hc. destruct Hacq as [H|[H|[H _]]]; congruence. }
  destruct (Status_eqb (status r) Processing && (10 <? progress r)) eqn:Hp.
  { apply andb_true_iff in Hp as [Hp1 Hp2].
    apply Status_eqb_true in Hp1. apply Z.ltb_lt in Hp2.
    destruct Hacq as [H|[H|[_ H]]]; try congruence; lia. }
  unfold runGuardedUpdate. rewrite Hr.
  assert (acquirable r = true) as -> by (apply acquirable_spec; exact Hacq).
  simpl. unfold getVideoRecord. rewrite lookup_insert_eq. reflexivity.
Qed.

(** The transition on a row that the guard keeps out, or without a row. *)
Lemma safelyTransitionToProcessing_refused (table : Store) (id : string) :
  (forall r, table !! id = Some r -> acquirable r = false) ->
  safelyTransitionToProcessing table id = (table, mkTransition false (table !! id)).
Proof.
  intros Hno.
  unfold safelyTransitionToProcessing, getVideoRecord.
  destruct (table !! id) as [r|] eqn:Hr; [|reflexivity].
  specialize (Hno r eq_refl).
  destruct (Status_eqb (status r) Completed); [reflexivity|].
  destruct (Status_eqb (status r) Processing && (10 <? progress r)); [reflexivity|].
  unfold runGuardedUpdate. rewrite Hr, Hno. simpl.
  unfold getVideoRecord. rewrite Hr. reflexivity.
Qed.

(** C1: [safelyTransitionToProcessing] succeeds exactly when the row exists
    with status uploading or failed, or processing with progress at most 10;
    on success the row gets status processing and progress 10 and the new
    row is returned; in every other case [success] is false and the table
    is left as it was. *)
Theorem C1_safelyTransitionToProcessing (table : Store) (id : string) :
  let out := safelyTransitionToProcessing table id in
  (success out.2 = true <->
     exists r, table !! id = Some r
       /\ (status r = Uploading \/ status r = Failed
           \/ (status r = Processing /\ progress r <= 10)))
  /\ (success out.2 = true ->
        exists r r', table !! id = Some r
          /\ r' = applyField (applyField r (SetStatus Processing)) (SetProgress 10)
          /\ status r' = Processing /\ progress r' = 10
          /\ out.1 = <[id := r']> table
          /\ record out.2 = Some r')
  /\ (success out.2 = false -> out.1 = table /\ record out.2 = table !! id).
Proof.
  intros out.
  destruct (table !! id) as [r|] eqn:Hr.
  - destruct (acquirable r) eqn:Hacq.
    + pose proof (safelyTransitionToProcessing_acquired table id r Hr Hacq) as E.
      simpl in E. subst out. rewrite E. simpl.
      split; [|split].
      * split; [|done]. intros _. exists r. split; [done|]. by apply acquirable_spec.
      * intros _. eexists r, _. repeat split; done.
      * discriminate.
    + assert (safelyTransitionToProcessing table id = (table, mkTransition false (table !! id))) as E.
      { apply safelyTransitionToProcessing_refused. intros r0 Hr0. congruence. }
      subst out. rewrite E. simpl.
      split; [|split].
      * split; [discriminate|]. intros (r0 & Hr0 & Hst).
        assert (r0 = r) as -> by congruence.
        apply acquirable_spec in Hst. congruence.
      * discriminate.
      * done.
  - assert (safelyTransitionToProcessing table id = (table, mkTransition false (table !! id))) as E.
    { apply safelyTransitionToProcessing_refused. intros r0 Hr0. congruence. }
    subst out. rewrite E. simpl.
    split; [|split].
    + split; [discriminate|]. intros (r0 & Hr0 & _). congruence.
    + discriminate.
    + done.
Qed.

(** C9: for an id without a row, [updateVideoRecord] returns undefined and
    [safelyTransitionToProcessing] returns [{success: false, record:
    undefined}], both leaving the table as it was; and whatever the id,
    neither operation adds a key to the table. *)
Theorem C9_absent_id_is_not_created (now : Z) (table : Store) (id : string)
    (updates : list FieldUpdate) :
  table !! id = None ->
  updateVideoRecord now table id updates = (table, None)
  /\ safelyTransitionToProcessing table id = (table, mkTransition false None)
  /\ (forall now' id' updates',
        dom (updateVideoRecord now' table id' updates').1 = dom table
        /\ dom (safelyTransitionToProcessing table id').1 = dom table).
Proof.
  intros Habsent. split; [|split].
  - unfold updateVideoRecord, getVideoRecord. by rewrite Habsent.
  - unfold safelyTransitionToProcessing, getVideoRecord. by rewrite Habsent.
  - intros now' id' updates'. split.
    + apply updateVideoRecord_dom.
    + apply safelyTransitionToProcessing_dom.
Qed.

Lemma C9_witness :
  updateVideoRecord 2000 {["v1" := sampleRecord "v1" Uploading 0]} "v2" [SetProgress 50]
  = ({["v1" := sampleRecord "v1" Uploading 0]}, None)
  /\ safelyTransitionToProcessing {["v1" := sampleRecord "v1" Uploading 0]} "v2"
     = ({["v1" := sampleRecord "v1" Uploading 0]}, mkTransition false None)
  /\ (forall now' id' updates',
        dom (updateVideoRecord now' {["v1" := sampleRecord "v1" Uploading 0]} id' updates').1
        = dom ({["v1" := sampleRecord "v1" Uploading 0]} : Store)
        /\ dom (safelyTransitionToProcessing {["v1" := sampleRecord "v1" Uploading 0]} id').1
           = dom ({["v1" := sampleRecord "v1" Uploading 0]} : Store)).
Proof.
  apply (C9_absent_id_is_not_created 2000 {["v1" := sampleRecord "v1" Uploading 0]}
           "v2" [SetProgress 50]).
  reflexivity.
Defined.

(** ** Frame rules for the effect monad *)

Section Frames.

Context (R : relation (Store * bool)) (P : Event -> Prop).

Lemma extends_refl (w : World) : extends R P w w.
Proof.
  split; [reflexivity|].
  exists []. split; [by rewrite app_nil_r | constructor].
Qed.

Lemma extends_trans (w1 w2 w3 : World) :
  extends R P w1 w2 -> extends R P w2 w3 -> extends R P w1 w3.
Proof.
  intros (Hr & evs & Ht & Hp) (Hr' & evs' & Ht' & Hp').
  split; [by etrans|].
  exists (evs ++ evs')%list. split.
  - rewrite Ht', Ht. by rewrite app_assoc.
  - by apply Forall_app.
Qed.

Lemma confined_ret {A} (a : A) : confined R P (ret a).
Proof. intros w. apply extends_refl. Qed.

Lemma confined_throw {A} (e : string) : confined R P (@throw A e).
Proof. intros w. apply extends_refl. Qed.

Lemma confined_bind {A B} (m : M A) (k : A -> M B) :
  confined R P m -> (forall a, confined R P (k a)) -> confined R P (bind m k).
Proof.
  intros Hm Hk w. unfold bind.
  specialize (Hm w). destruct (m w) as [[a|e] w']; simpl in *.
  - eapply extends_trans; [exact Hm | apply Hk].
  - exact Hm.
Qed.

Lemma confined_tryCatch {A} (m : M A) (h : string -> M A) :
  confined R P m -> (forall e, confined R P (h e)) -> confined R P (tryCatch m h).
Proof.
  intros Hm Hh w. unfold tryCatch.
  specialize (Hm w). destruct (m w) as [[a|e] w']; simpl in *.
  - exact Hm.
  - eapply extends_trans; [exact Hm | apply Hh].
Qed.

Lemma confined_emit (e : Event) : P e -> confined R P (emit e).
Proof.
  intros He w. unfold emit; simpl.
  split; [reflexivity|].
  exists [e]. split; [reflexivity | by constructor].
Qed.

Lemma confined_when (b : bool) (m : M unit) :
  confined R P m -> confined R P (when b m).
Proof. intros Hm. destruct b; simpl; [exact Hm | apply confined_ret]. Qed.

Lemma confined_readRecord (id : string) : confined R P (readRecord id).
Proof. intros w. apply extends_refl. Qed.

Lemma confined_isAcknowledged : confined R P isAcknowledged.
Proof. intros w. apply extends_refl. Qed.

Lemma confined_updateRecord (now : Z) (id : string) (updates : list FieldUpdate) :
  (forall table b, R (table, b) ((updateVideoRecord now table id updates).1, b)) ->
  (forall v, P (EvWrite id v)) ->
  confined R P (updateRecord now id updates).
Proof.
  intros HR HP w. unfold updateRecord.
  specialize (HR (db w) (messageAcknowledged w)).
  destruct (updateVideoRecord now (db w) id updates) as [table' r]; simpl in *.
  split; [by apply rtc_once|].
  eexists. split; [reflexivity|].
  destruct (table' !! id); [destruct r|]; repeat constructor. apply HP.
Qed.

Lemma confined_transition (id : string) :
  (forall table b, R (table, b) ((safelyTransitionToProcessing table id).1, b)) ->
  (forall v, P (EvWrite id v)) ->
  confined R P (transition id).
Proof.
  intros HR HP w. unfold transition.
  specialize (HR (db w) (messageAcknowledged w)).
  destruct (safelyTransitionToProcessing (db w) id) as [table' r]; simpl in *.
  split; [by apply rtc_once|].
  eexists. split; [reflexivity|].
  destruct (success r); [destruct (table' !! id)|]; repeat constructor. apply HP.
Qed.

Lemma confined_setAcknowledged :
  (forall table b, R (table, b) (table, true)) ->
  confined R P setAcknowledged.
Proof.
  intros HR w. unfold setAcknowledged; simpl.
  split; [apply rtc_once, HR|].
  exists []. split; [by rewrite app_nil_r | constructor].
Qed.

Lemma confined_execSync (site : ExecSite) (ok : bool) (cmd : string) :
  P (EvExec site cmd) -> confined R P (execSync site ok cmd).
Proof.
  intros HP. unfold execSync. apply confined_bind.
  - by apply confined_emit.
  - intros _. destruct ok; [apply confined_ret | apply confined_throw].
Qed.

Lemma confined_putObject (env : Env) (key : string) :
  P (EvPut key) -> confined R P (putObject env key).
Proof.
  intros HP. unfold putObject. apply confined_bind.
  - by apply confined_emit.
  - intros _. destruct (putOk env key); [apply confined_ret | apply confined_throw].
Qed.

End Frames.

Lemma extends_weaken (R R' : relation (Store * bool)) (P P' : Event -> Prop)
    (w w' : World) :
  (forall a b, R a b -> R' a b) -> (forall e, P e -> P' e) ->
  extends R P w w' -> extends R' P' w w'.
Proof.
  intros HR HP (Hr & evs & Ht & Hp).
  split; [eapply rtc_subrel; eauto|].
  exists evs. split; [exact Ht|]. eapply Forall_impl; eauto.
Qed.

Lemma confined_weaken (R R' : relation (Store * bool)) (P P' : Event -> Prop)
    {A} (m : M A) :
  (forall a b, R a b -> R' a b) -> (forall e, P e -> P' e) ->
  confined R P m -> confined R' P' m.
Proof. intros HR HP Hm w. eapply extends_weaken; eauto. Qed.

(** One step of a frame derivation. *)
Ltac frame_step :=
  first
    [ apply confined_ret
    | apply confined_throw
    | apply confined_readRecord
    | apply confined_isAcknowledged
    | apply confined_when
    | apply confined_bind; [|intros ?]
    | apply confined_tryCatch; [|intros ?]
    | apply confined_emit
    | apply confined_execSync
    | apply confined_putObject
    | apply confined_updateRecord
    | apply confined_transition
    | match goal with
      | |- confined _ _ (match ?x with _ => _ end) => destruct x eqn:?
      | |- confined _ _ (if ?x then _ else _) => destruct x eqn:?
      | |- confined _ _ (let 'pair _ _ := ?x in _) => destruct x eqn:?
      end ].

Ltac frame := repeat frame_step.

Lemma Node_induction (Q : Node -> Prop) :
  (forall name, Q (File name)) ->
  (forall name children, Forall Q children -> Q (Dir name children)) ->
  forall n, Q n.
Proof.
  intros Hfile Hdir. fix IH 1. intros [name|name children].
  - apply Hfile.
  - apply Hdir. induction children as [|c cs IHcs]; constructor.
    + apply IH.
    + exact IHcs.
Qed.

Lemma tailEvent_transcoderEvent (id : string) (e : Event) :
  tailEvent id e -> transcoderEvent id e.
Proof. destruct e as [| | [] | | | | |]; simpl; tauto. Qed.

(** ** Frames of the transcoder *)

Section TranscoderFrames.

Context (ENV : Environment) (path_parse_name : string -> string)
  (floorShare15 : Z -> Z -> Z).
Context (R : relation (Store * bool)) (id : string).

Hypothesis transcoder_updates :
  forall now table b updates,
    forallb transcoderField updates = true ->
    R (table, b) ((updateVideoRecord now table id updates).1, b).

Ltac frame_side :=
  frame; try (apply transcoder_updates; reflexivity); simpl; auto.

Lemma confined_setProgress (env : Env) (p : Z) :
  confined R (tailEvent id) (setProgress env id p).
Proof. unfold setProgress. frame_side. Qed.

Lemma confined_uploadEntry (env : Env) (n : Node) :
  forall totalFiles prefix uploadedCount,
    confined R (tailEvent id)
      (uploadEntry floorShare15 env id totalFiles prefix n uploadedCount).
Proof.
  induction n as [file|file children IH] using Node_induction;
    intros totalFiles prefix uploadedCount; simpl.
  - frame_side.
  - apply confined_bind; [|intros _; apply confined_ret].
    generalize (countFiles children) as total.
    generalize (prefix +:+ "/" +:+ file) as sub.
    generalize 0 as count.
    induction IH as [|c cs Hc _ IHcs]; intros count sub total.
    + apply confined_ret.
    + apply confined_bind; [apply Hc | intros c'; apply IHcs].
Qed.

Lemma confined_uploadEntries (env : Env) (l : list Node) :
  forall totalFiles prefix uploadedCount,
    confined R (tailEvent id)
      (uploadEntries floorShare15 env id totalFiles prefix l uploadedCount).
Proof.
  induction l as [|n l IH]; intros totalFiles prefix uploadedCount; simpl.
  - apply confined_ret.
  - apply confined_bind; [apply confined_uploadEntry | intros c; apply IH].
Qed.

Lemma confined_uploadFile (env : Env) (files : list Node) (prefix : string) :
  confined R (tailEvent id) (uploadFile floorShare15 env files prefix id).
Proof. apply confined_uploadEntries. Qed.

Lemma confined_convertToMp4 (env : Env) (inputPath outputPath : string) :
  confined R (tailEvent id) (convertToMp4 env inputPath outputPath id).
Proof.
  unfold convertToMp4.
  apply confined_tryCatch; [|intros e; apply confined_throw].
  apply confined_bind; [|intros _; apply confined_setProgress].
  apply confined_execSync. exact I.
Qed.

Lemma confined_uploadMp4ToS3 (env : Env) (filePath s3Key : string) :
  confined R (tailEvent id) (uploadMp4ToS3 ENV env filePath s3Key id).
Proof.
  unfold uploadMp4ToS3.
  apply confined_tryCatch; [|intros e; apply confined_throw].
  apply confined_bind; [apply confined_putObject; exact I|intros _].
  apply confined_bind; [apply confined_setProgress|intros _; apply confined_ret].
Qed.

Lemma confined_mp4Block (env : Env) (codecInfo : VideoCodecInfo)
    (localPath outputDir s3Prefix : string) :
  confined R (tailEvent id) (mp4Block ENV env codecInfo localPath outputDir s3Prefix id).
Proof.
  unfold mp4Block.
  apply confined_tryCatch; [|intros e; apply confined_ret].
  apply confined_bind.
  - destruct (includes (containerFormat codecInfo) "mp4"); [apply confined_ret|].
    apply confined_bind; [apply confined_convertToMp4 | intros _; apply confined_ret].
  - intros mp4FilePath.
    apply confined_bind; [apply confined_uploadMp4ToS3|intros mp4Url].
    frame_side.
Qed.

Lemma confined_publishBlock (env : Env) (codecInfo : VideoCodecInfo) (s3Prefix : string) :
  confined R (tailEvent id)
    (publishBlock ENV floorShare15 env codecInfo s3Prefix id).
Proof.
  unfold publishBlock.
  apply confined_bind; [frame_side|intros early].
  destruct early as [url|]; [apply confined_ret|].
  apply confined_bind; [apply confined_setProgress|intros _].
  apply confined_bind; [apply confined_uploadFile|intros _].
  apply confined_bind; [apply confined_setProgress|intros _].
  apply confined_bind; [apply confined_putObject; exact I|intros _].
  apply confined_ret.
Qed.

Lemma confined_weaken_tail {A} (m : M A) :
  confined R (tailEvent id) m -> confined R (transcoderEvent id) m.
Proof.
  apply confined_weaken; [auto | apply tailEvent_transcoderEvent].
Qed.

Lemma confined_recheckRecord (env : Env) :
  confined R (tailEvent id) (recheckRecord env id).
Proof. unfold recheckRecord. frame_side. Qed.

Lemma confined_hlsBlock (env : Env) (localPath outputDir cmd : string) :
  confined R (transcoderEvent id) (hlsBlock env localPath outputDir id cmd).
Proof.
  unfold hlsBlock.
  apply confined_bind; [apply confined_execSync; exact I|intros _].
  apply confined_bind; [apply confined_weaken_tail, confined_setProgress|intros _].
  apply confined_bind; [apply confined_execSync; exact I|intros _].
  apply confined_bind; [apply confined_weaken_tail, confined_setProgress|intros _].
  destruct (playlistExists env); [apply confined_ret | apply confined_throw].
Qed.

Lemma confined_hlsFallback (env : Env) (strategy : Strategy) (localPath outputPath : string) :
  confined R (transcoderEvent id) (hlsFallback env strategy localPath outputPath).
Proof. unfold hlsFallback. destruct strategy; frame_side. Qed.

Lemma confined_probeOrUnknown (P : Event -> Prop) (env : Env) :
  confined R P (probeOrUnknown env).
Proof.
  unfold probeOrUnknown, probeVideoCodecs.
  apply confined_tryCatch; [|intros e; apply confined_ret].
  destruct (ffprobe env); [apply confined_ret | apply confined_throw].
Qed.

Theorem confined_transcodeAndUpload (env : Env) (localPath filename : string)
    (s3Path : option string) (uploadToS3 : bool) :
  confined R (transcoderEvent id)
    (transcodeAndUpload ENV path_parse_name floorShare15 env localPath filename id
       s3Path uploadToS3).
Proof.
  unfold transcodeAndUpload.
  apply confined_bind; [apply confined_weaken_tail, confined_recheckRecord|intros early].
  destruct early as [url|]; [apply confined_ret|].
  apply confined_bind.
  { destruct (mkdirOk env); [apply confined_ret | apply confined_throw]. }
  intros _.
  apply confined_bind; [apply confined_weaken_tail, confined_setProgress|intros _].
  apply confined_bind; [apply confined_probeOrUnknown|intros codecInfo].
  apply confined_bind.
  { apply confined_tryCatch; [apply confined_hlsBlock|intros e; apply confined_hlsFallback]. }
  intros _.
  apply confined_bind.
  { apply confined_when, confined_weaken_tail, confined_mp4Block. }
  intros _. apply confined_weaken_tail, confined_publishBlock.
Qed.

End TranscoderFrames.

(** ** Frames of the worker *)



Section WorkerFrames.

Context (ENV : Environment) (path_parse_name : string -> string)
  (floorShare15 : Z -> Z -> Z).
Context (R : relation (Store * bool)) (id : string).

Hypothesis worker_updates :
  forall now table b updates,
    forallb workerField updates = true ->
    R (table, b) ((updateVideoRecord now table id updates).1, b).




End WorkerFrames.

(** ** The events of a handler run *)

Lemma bind_ret {A B} (a : A) (k : A -> M B) (w : World) : bind (ret a) k w = k a w.
Proof. reflexivity. Qed.



Lemma ackMessage_open (env : Env) (w : World) :
  channelOpen env = true ->
  ackMessage env w = (Ok tt, mkWorld (db w) true (trace w ++ [EvAck])).
Proof. intros H. unfold ackMessage, channelAck, bind. rewrite H. reflexivity. Qed.


Lemma transition_trace (id : string) (w : World) :
  exists tr table' evs,
    transition id w = (Ok tr, mkWorld table' (messageAcknowledged w) (trace w ++ evs))
    /\ Forall (jobEvent id) evs.
Proof.
  unfold transition.
  destruct (safelyTransitionToProcessing (db w) id) as [table' r].
  eexists _, _, _. split; [reflexivity|].
  destruct (success r); [destruct (table' !! id)|]; repeat constructor.
Qed.


(** ** The codec prober *)

Lemma inList_In (x : string) (l : list string) : inList x l = true <-> In x l.
Proof.
  unfold inList. rewrite existsb_exists. split.
  - intros (y & Hy & Heq). apply String.eqb_eq in Heq. by subst.
  - intros Hx. exists x. split; [done|]. apply String.eqb_refl.
Qed.

Lemma videoCompatible_spec (videoCodec : string) (videoProfile : option string) :
  videoCompatible videoCodec videoProfile = true <-> VideoCompatible videoCodec videoProfile.
Proof.
  unfold videoCompatible, VideoCompatible.
  rewrite andb_true_iff, orb_true_iff, negb_true_iff, String.eqb_eq.
  split; intros [Hc Hp]; (split; [exact Hc|]).
  - destruct Hp as [Hp|Hp]; [by left|].
    destruct videoProfile as [p|]; [|discriminate].
    right. exists p. split; [done|]. by apply inList_In.
  - destruct Hp as [Hp|(p & -> & Hp)]; [by left|].
    right. by apply inList_In.
Qed.

Lemma probeOrUnknown_pure (env : Env) :
  exists info, forall w, probeOrUnknown env w = (Ok info, w).
Proof.
  unfold probeOrUnknown, tryCatch, probeVideoCodecs.
  destruct (ffprobe env) as [out|]; eexists; intros w; reflexivity.
Qed.

Lemma isCompatibleWithHls_spec (v a : string) (p : option string) :
  isCompatibleWithHls v a p = true <-> VideoCompatible v p /\ a = "aac".
Proof.
  unfold isCompatibleWithHls.
  rewrite andb_true_iff, videoCompatible_spec, String.eqb_eq. tauto.
Qed.

Lemma strategy_copy (v a : string) (p : option string) :
  determineTranscodingStrategy v a p = Copy <-> VideoCompatible v p /\ a = "aac".
Proof.
  rewrite <- videoCompatible_spec, <- String.eqb_eq.
  unfold determineTranscodingStrategy.
  destruct (videoCompatible v p), (String.eqb a "aac"); simpl;
    split; try done; intros [? ?]; done.
Qed.

Lemma strategy_selective (v a : string) (p : option string) :
  determineTranscodingStrategy v a p = Selective <-> VideoCompatible v p /\ a <> "aac".
Proof.
  rewrite <- videoCompatible_spec, <- String.eqb_neq.
  unfold determineTranscodingStrategy.
  destruct (videoCompatible v p), (String.eqb a "aac"); simpl;
    split; try done; intros [? ?]; done.
Qed.

Lemma strategy_reencode (v a : string) (p : option string) :
  determineTranscodingStrategy v a p = Reencode <-> ~ VideoCompatible v p.
Proof.
  rewrite <- videoCompatible_spec.
  unfold determineTranscodingStrategy.
  destruct (videoCompatible v p), (String.eqb a "aac"); simpl;
    split; try done; intros H; by destruct H.
Qed.

(** C6, as the code has it: the video stream is compatible when its codec
    is h264 and its profile is absent or empty, or is one of baseline, main,
    high and constrained baseline once put in lower case; [isHlsCompatible]
    is that together with an aac audio codec; the strategy is copy when
    both hold, selective when only the video is compatible, and reencode
    otherwise; a failed probe yields reencode with both codecs "unknown". *)
Theorem C6_codec_prober :
  (forall v a p, isCompatibleWithHls v a p = true <-> VideoCompatible v p /\ a = "aac")
  /\ (forall v a p,
        determineTranscodingStrategy v a p = Copy <-> VideoCompatible v p /\ a = "aac")
  /\ (forall v a p,
        determineTranscodingStrategy v a p = Selective <-> VideoCompatible v p /\ a <> "aac")
  /\ (forall v a p,
        determineTranscodingStrategy v a p = Reencode <-> ~ VideoCompatible v p)
  /\ (forall env w,
        match ffprobe env with
        | None =>
            exists info,
              probeOrUnknown env w = (Ok info, w)
              /\ recommendedStrategy info = Reencode
              /\ videoCodec info = "unknown" /\ audioCodec info = "unknown"
              /\ isHlsCompatible info = false
        | Some out =>
            exists info,
              probeOrUnknown env w = (Ok info, w)
              /\ isHlsCompatible info
                 = isCompatibleWithHls (videoCodec info) (audioCodec info) (videoProfile info)
              /\ recommendedStrategy info
                 = determineTranscodingStrategy (videoCodec info) (audioCodec info)
                     (videoProfile info)
        end).
Proof.
  split; [exact isCompatibleWithHls_spec|].
  split; [exact strategy_copy|].
  split; [exact strategy_selective|].
  split; [exact strategy_reencode|].
  intros env w.
  destruct (ffprobe env) as [out|] eqn:Hprobe.
  - unfold probeOrUnknown, tryCatch, probeVideoCodecs. rewrite Hprobe.
    eexists. split; [reflexivity|]. split; reflexivity.
  - unfold probeOrUnknown, tryCatch, probeVideoCodecs. rewrite Hprobe.
    eexists. split; [reflexivity|]. repeat split.
Qed.

(** C6 as stated fails: an H.264/AAC source whose video stream has no
    profile is rated compatible and copied by the prober, although its
    (empty) profile is none of the four names. *)
Lemma C6_counterexample :
  exists info,
    probeOrUnknown sampleEnvNoProfile sampleWorld = (Ok info, sampleWorld)
    /\ isHlsCompatible info = true
    /\ recommendedStrategy info = Copy
    /\ isHlsCompatible_spec (videoCodec info) (audioCodec info) (videoProfile info) = false.
Proof. eexists. split; [reflexivity|]. repeat split. Qed.

(** ** Validation at session creation and at ingress *)

(** C2 fails on the code: a direct upload of 150 MiB is accepted at session
    creation, where the ceiling for direct uploads is 200 MiB, and the same
    file name and size are rejected by the validation of [directUpload],
    which applies [MAX_FILE_SIZE] (100 MiB here). *)
Theorem C2_direct_upload_rejected_at_ingress :
  let created :=
    createVideoUpload sampleENV sampleMimeLookup "id-1" 1000 sampleDirectRequest ∅ in
  (exists data, created.2 = SuccessResponse data)
  /\ (directUpload sampleENV sampleMimeLookup 1001 true true "id-1"
        (Some sampleDirectFile) created.1).1.2
     = ErrorResponse 400 "File size (150MB) exceeds maximum allowed size (100MB)".
Proof. split; [eexists|]; vm_compute; reflexivity. Qed.

(** The gap for any configuration: between [MAX_FILE_SIZE] and 200 MiB a
    direct upload passes the validation of the session and fails the one
    of the ingress. *)
Lemma direct_ceiling_mismatch (ENV : Environment) (mime_lookup : string -> option string)
    (filename : string) (filesize : Z) :
  isValid (validateFileType ENV mime_lookup filename) = true ->
  MAX_FILE_SIZE ENV < filesize <= maxDirectUploadSize ->
  0 < filesize ->
  sessionValidation ENV mime_lookup filename filesize "direct"
  = inr (mkValidationResult true [])
  /\ isValid (validateUpload ENV mime_lookup filename filesize) = false.
Proof.
  intros Htype [Hlo Hhi] Hpos.
  unfold sessionValidation. simpl.
  assert ((maxDirectUploadSize <? filesize) = false) as -> by (apply Z.ltb_ge; lia).
  unfold validateUpload. rewrite Htype.
  unfold validateFileSize.
  assert ((filesize <=? 0) = false) as -> by (apply Z.leb_gt; lia).
  assert ((MAX_FILE_SIZE ENV <? filesize) = true) as -> by (apply Z.ltb_lt; lia).
  simpl. done.
Qed.

(** The two ceilings of the session validation: a size on the ceiling
    passes the size check, one byte more does not. *)
Lemma session_ceilings (ENV : Environment) (mime_lookup : string -> option string)
    (filename : string) :
  isValid (validateFileType ENV mime_lookup filename) = true ->
  0 < MAX_FILE_SIZE ENV ->
  (exists r, sessionValidation ENV mime_lookup filename maxDirectUploadSize "direct" = inr r
             /\ isValid r = true)
  /\ (exists msg, sessionValidation ENV mime_lookup filename (maxDirectUploadSize + 1) "direct"
                  = inl msg)
  /\ (exists r, sessionValidation ENV mime_lookup filename (MAX_FILE_SIZE ENV) "tus" = inr r
                /\ isValid r = true)
  /\ (exists r, sessionValidation ENV mime_lookup filename (MAX_FILE_SIZE ENV + 1) "tus" = inr r
                /\ isValid r = false).
Proof.
  intros Htype Hmax. repeat split.
  - unfold sessionValidation. simpl.
    unfold validateUpload. rewrite Htype. unfold validateFileSize. simpl.
    destruct (MAX_FILE_SIZE ENV <? maxDirectUploadSize); simpl; eexists; split; reflexivity.
  - unfold sessionValidation. simpl. eexists; reflexivity.
  - unfold sessionValidation. simpl.
    unfold validateUpload. rewrite Htype. unfold validateFileSize.
    assert ((MAX_FILE_SIZE ENV <=? 0) = false) as -> by (apply Z.leb_gt; lia).
    rewrite Z.ltb_irrefl. simpl. eexists; split; reflexivity.
  - unfold sessionValidation. simpl.
    unfold validateUpload. rewrite Htype. unfold validateFileSize.
    assert ((MAX_FILE_SIZE ENV + 1 <=? 0) = false) as -> by (apply Z.leb_gt; lia).
    assert ((MAX_FILE_SIZE ENV <? MAX_FILE_SIZE ENV + 1) = true) as -> by (apply Z.ltb_lt; lia).
    simpl. eexists; split; reflexivity.
Qed.

(** ** Progress within a run *)

(** C3 fails on the code.  For an MP4 source with H.264 video and MP3
    audio published with [uploadToS3], every step succeeding, the progress
    column drops from 85 (after the upload of the MP4) to 80 (before the
    upload of the tree); for a source that has to be converted to MP4 it
    drops from 75 to 70 as well. *)
Theorem C3_progress_drops_with_uploadToS3 :
  progressWrites "v1"
    (trace (deliver sampleENV sampleParseName sampleFloorShare15 sampleEnv
              (ParsedJob (sampleJob "v1" true))
              {["v1" := sampleRecord "v1" Uploading 0]}))
  = [10; 25; 60; 75; 85; 85; 80; 95; 100; 100]
  /\ nonDecreasing [10; 25; 60; 75; 85; 85; 80; 95; 100; 100] = false
  /\ progressWrites "v1"
       (trace (deliver sampleENV sampleParseName sampleFloorShare15 sampleEnvMatroska
                 (ParsedJob (sampleJob "v1" true))
                 {["v1" := sampleRecord "v1" Uploading 0]}))
     = [10; 25; 60; 75; 70; 85; 85; 80; 95; 100; 100]
  /\ nonDecreasing [10; 25; 60; 75; 70; 85; 85; 80; 95; 100; 100] = false.
Proof. repeat split; vm_compute; reflexivity. Qed.

(** ** The key prefix *)

Lemma bind_Ok_inv {A B} (m : M A) (k : A -> M B) (w w' : World) (b : B) :
  bind m k w = (Ok b, w') ->
  exists a w1, m w = (Ok a, w1) /\ k a w1 = (Ok b, w').
Proof.
  unfold bind. destruct (m w) as [[a|e] w1]; [eauto|discriminate].
Qed.

Lemma rtc_keeps (I : Store -> Prop) (x y : Store * bool) :
  rtc (keeps I) x y -> I x.1 -> I y.1.
Proof. induction 1 as [|x y z Hxy _ IH]; [done|]. intros Hx. by apply IH, Hxy. Qed.

Lemma confined_keeps (I : Store -> Prop) (P : Event -> Prop) {A} (m : M A)
    (w w' : World) (res : Result A) :
  confined (keeps I) P m -> m w = (res, w') -> I (db w) -> I (db w').
Proof.
  intros Hm Hrun Hw. destruct (Hm w) as [Hrtc _]. rewrite Hrun in Hrtc.
  by apply (rtc_keeps I _ _ Hrtc).
Qed.

Lemma updateVideoRecord_lookup (now : Z) (table : Store) (id k : string)
    (updates : list FieldUpdate) :
  (updateVideoRecord now table id updates).1 !! k
  = if decide (id = k)
    then (fun r => toRow (mergeUpdates now r updates)) <$> table !! id
    else table !! k.
Proof.
  unfold updateVideoRecord, getVideoRecord.
  destruct (table !! id) as [r|] eqn:Hr; simpl.
  - rewrite lookup_insert. by destruct (decide (id = k)).
  - destruct (decide (id = k)) as [<-|]; [by rewrite Hr|done].
Qed.

Lemma status_applyField (r : VideoRecord) (u : FieldUpdate) :
  status (applyField r u) = match u with SetStatus v => v | _ => status r end.
Proof. by destruct u. Qed.

Lemma status_spread_transcoder (updates : list FieldUpdate) (r : VideoRecord) :
  forallb transcoderField updates = true ->
  status (spread r updates) = status r \/ status (spread r updates) = Processing.
Proof.
  unfold spread. revert r.
  induction updates as [|u us IH]; intros r Hu; simpl; [by left|].
  simpl in Hu. apply andb_true_iff in Hu as [Hu Hus].
  destruct (IH (applyField r u) Hus) as [H|H]; [|by right].
  rewrite H, status_applyField.
  destruct u as [| [] | | | | | | | | | | | | | |]; simpl in *; try discriminate; auto.
Qed.

Lemma status_mergeUpdates (now : Z) (r : VideoRecord) (updates : list FieldUpdate) :
  status (mergeUpdates now r updates) = status (spread r updates).
Proof. unfold mergeUpdates. by case_bool_decide. Qed.

Lemma notCompleted_transcoder_updates (id : string) :
  forall now table (b : bool) updates,
    forallb transcoderField updates = true ->
    keeps (notCompleted id) (table, b) ((updateVideoRecord now table id updates).1, b).
Proof.
  intros now table b updates Hu Hnc r'. simpl.
  rewrite updateVideoRecord_lookup. rewrite decide_True by done.
  destruct (table !! id) as [r|] eqn:Hr; simpl; [|done].
  intros [= <-]. simpl. rewrite status_mergeUpdates.
  destruct (status_spread_transcoder updates r Hu) as [-> | ->]; [by apply Hnc|done].
Qed.

Section PrefixRoundTrip.

Context (ENV : Environment) (mime_lookup : string -> option string)
  (path_parse_name : string -> string) (floorShare15 : Z -> Z -> Z).

Lemma recheckRecord_notCompleted (env : Env) (id : string) (w w1 : World)
    (early : option string) :
  notCompleted id (db w) ->
  recheckRecord env id w = (Ok early, w1) ->
  early = None.
Proof.
  intros Hnc. unfold recheckRecord.
  destruct (truthy id); [|by intros [= <- _]].
  unfold bind, readRecord, getVideoRecord. simpl.
  destruct (db w !! id) as [r|] eqn:Hr; [|by intros [= <- _]].
  destruct (Status_eqb (status r) Completed) eqn:Hc.
  { apply Status_eqb_true in Hc. by destruct (Hnc r Hr). }
  destruct (Status_eqb (status r) Failed).
  - unfold updateRecord.
    destruct (updateVideoRecord _ _ _ _) as [table' r']. simpl. by intros [= <- _].
  - by intros [= <- _].
Qed.

Lemma publishBlock_url (env : Env) (codecInfo : VideoCodecInfo) (s3Prefix id : string)
    (w w' : World) (url : string) :
  notCompleted id (db w) ->
  publishBlock ENV floorShare15 env codecInfo s3Prefix id w = (Ok url, w') ->
  url = playlistUrl ENV s3Prefix.
Proof.
  intros Hnc Hrun. unfold publishBlock in Hrun.
  apply bind_Ok_inv in Hrun as (early & w1 & Hearly & Hrun).
  assert (early = None) as ->.
  { destruct (truthy id); [|by injection Hearly as <- _].
    unfold bind, readRecord, getVideoRecord in Hearly. simpl in Hearly.
    destruct (db w !! id) as [r|] eqn:Hr; [|by injection Hearly as <- _].
    destruct (Status_eqb (status r) Completed) eqn:Hc.
    - apply Status_eqb_true in Hc. by destruct (Hnc r Hr).
    - by injection Hearly as <- _. }
  apply bind_Ok_inv in Hrun as (? & w2 & _ & Hrun).
  apply bind_Ok_inv in Hrun as (? & w3 & _ & Hrun).
  apply bind_Ok_inv in Hrun as (? & w4 & _ & Hrun).
  apply bind_Ok_inv in Hrun as (? & w5 & _ & Hrun).
  by injection Hrun as <- _.
Qed.

(** Outside the early return on a completed record, [transcodeAndUpload]
    returns the playlist URL under the prefix of its arguments. *)
Lemma transcodeAndUpload_url (env : Env) (localPath filename id : string)
    (s3Path : option string) (uploadToS3 : bool) (w w' : World) (url : string) :
  truthy id = true ->
  notCompleted id (db w) ->
  transcodeAndUpload ENV path_parse_name floorShare15 env localPath filename id
    s3Path uploadToS3 w = (Ok url, w') ->
  url = playlistUrl ENV (s3PrefixOf s3Path id).
Proof.
  intros Hid Hnc Hrun. unfold transcodeAndUpload in Hrun. rewrite Hid in Hrun.
  pose proof (notCompleted_transcoder_updates id) as Hupd.
  apply bind_Ok_inv in Hrun as (early & w1 & Hearly & Hrun).
  assert (early = None) as -> by (eapply recheckRecord_notCompleted; eauto).
  assert (notCompleted id (db w1)) as Hnc1.
  { eapply confined_keeps; [|exact Hearly|exact Hnc].
    by apply confined_recheckRecord. }
  apply bind_Ok_inv in Hrun as (? & w2 & Hs2 & Hrun).
  assert (w2 = w1) as ->.
  { destruct (mkdirOk env); [by injection Hs2 as _ <-|discriminate]. }
  apply bind_Ok_inv in Hrun as (? & w3 & Hs3 & Hrun).
  assert (notCompleted id (db w3)) as Hnc3.
  { eapply confined_keeps; [|exact Hs3|exact Hnc1].
    by apply confined_setProgress. }
  apply bind_Ok_inv in Hrun as (codecInfo & w4 & Hs4 & Hrun).
  assert (notCompleted id (db w4)) as Hnc4.
  { eapply confined_keeps; [|exact Hs4|exact Hnc3].
    apply confined_probeOrUnknown with (P := tailEvent id). }
  apply bind_Ok_inv in Hrun as (? & w5 & Hs5 & Hrun).
  assert (notCompleted id (db w5)) as Hnc5.
  { eapply confined_keeps; [|exact Hs5|exact Hnc4].
    apply confined_tryCatch; [by apply confined_hlsBlock|].
    intros e. by apply confined_hlsFallback. }
  apply bind_Ok_inv in Hrun as (? & w6 & Hs6 & Hrun).
  assert (notCompleted id (db w6)) as Hnc6.
  { eapply confined_keeps; [|exact Hs6|exact Hnc5].
    apply confined_when. by apply confined_mp4Block. }
  eapply publishBlock_url; eauto.
Qed.

End PrefixRoundTrip.
Lemma s3PrefixOf_orNull (p : option string) (name : string) :
  s3PrefixOf (orNull p) name = s3PrefixOf p name.
Proof.
  unfold orNull, truthyO. destruct p as [s|]; [|done].
  destruct (truthy s) eqn:Hs; simpl; by rewrite ?Hs.
Qed.

Lemma s3PrefixOf_unfold (p : option string) (name : string) :
  s3PrefixOf p name
  = if truthyO p then stripSlashes (orEmpty p) +:+ "/" +:+ name else name.
Proof. by destruct p. Qed.

(** What a successful [createVideoUpload] returns and stores. *)
Lemma createVideoUpload_success (ENV : Environment) (mime_lookup : string -> option string)
    (uuid : string) (now : Z) (req : CreateRequest) (table : Store) (data : SessionData) :
  (createVideoUpload ENV mime_lookup uuid now req table).2 = SuccessResponse data ->
  let clean := cleanS3PathOf (reqS3Path req) in
  videoUrl data = playlistUrl ENV (s3PrefixOf clean uuid)
  /\ sessionUploadId data = uuid
  /\ (truthyO clean = true -> matchesS3Path (orEmpty clean) = true)
  /\ exists r, (createVideoUpload ENV mime_lookup uuid now req table).1 !! uuid = Some r
               /\ s3Path r = orNull clean /\ status r = Uploading /\ progress r = 0.
Proof.
  intros Hok clean. unfold createVideoUpload in *. fold clean in Hok |- *.
  destruct (negb (truthy (reqFilename req)) || (reqFilesize req =? 0)); [discriminate|].
  destruct (sessionValidation _ _ _ _ _) as [msg|validationResult]; [discriminate|].
  destruct (negb (isValid validationResult)); [discriminate|].
  destruct (truthy (reqType req) && negb (inList (reqType req) ["direct"; "tus"]));
    [discriminate|].
  destruct (truthyO clean && negb (matchesS3Path (orEmpty clean))) eqn:Hpath;
    [discriminate|].
  unfold createVideoRecord in *.
  destruct (table !! uuid) eqn:Hfree; [discriminate|].
  simpl in Hok. injection Hok as <-. simpl.
  split; [done|]. split; [done|]. split.
  - intros Ht. rewrite Ht in Hpath. simpl in Hpath. by apply negb_false_iff in Hpath.
  - eexists. rewrite lookup_insert_eq. split; [reflexivity|]. done.
Qed.
(** The jobs published by both ingress paths carry the [s3Path] of the row. *)
Lemma published_job_s3Path (ENV : Environment) (mime_lookup : string -> option string)
    (now : Z) (renameOk publishOk : bool) (id storagePath : string)
    (file : option UploadedFile) (metadataFilename : option string)
    (table : Store) (r : VideoRecord) (job : Job) :
  table !! id = Some r ->
  (directUpload ENV mime_lookup now renameOk publishOk id file table).2 = Some job
  \/ (onUploadFinish now id storagePath metadataFilename table).2 = Some job ->
  uploadId job = Some id /\ jobS3Path job = s3Path r.
Proof.
  intros Hr [Hjob|Hjob].
  - unfold directUpload, getVideoRecord in Hjob. rewrite Hr in Hjob.
    destruct file as [f|]; [|discriminate].
    repeat (case_match; simpl in Hjob; try discriminate).
    all: by injection Hjob as <-.
  - unfold onUploadFinish, getVideoRecord in Hjob. rewrite Hr in Hjob.
    repeat (case_match; simpl in Hjob; try discriminate).
    all: by injection Hjob as <-.
Qed.

(** C8: for a session that [createVideoUpload] accepts, the [videoUrl] it
    returns is [{bucket}.{endpoint}/{prefix}/index.m3u8], where [prefix] is
    the cleaned [s3Path] without its leading and trailing slash, then [/]
    and the upload id, or the upload id alone without an [s3Path]; and a
    run of [transcodeAndUpload] for that upload id with the [s3Path] stored
    in the row returns the same string. *)
Theorem C8_key_prefix_round_trip (ENV : Environment)
    (mime_lookup : string -> option string) (path_parse_name : string -> string)
    (floorShare15 : Z -> Z -> Z)
    (uuid : string) (now : Z) (req : CreateRequest) (table : Store) (data : SessionData)
    (r : VideoRecord) (env : Env) (localPath filename : string) (uploadToS3 : bool)
    (w w' : World) (url : string) :
  truthy uuid = true ->
  (createVideoUpload ENV mime_lookup uuid now req table).2 = SuccessResponse data ->
  (createVideoUpload ENV mime_lookup uuid now req table).1 !! uuid = Some r ->
  notCompleted uuid (db w) ->
  transcodeAndUpload ENV path_parse_name floorShare15 env localPath filename uuid
    (s3Path r) uploadToS3 w = (Ok url, w') ->
  let clean := cleanS3PathOf (reqS3Path req) in
  let prefix :=
    if truthyO clean then stripSlashes (orEmpty clean) +:+ "/" +:+ uuid else uuid in
  videoUrl data
  = S3_BUCKET ENV +:+ "." +:+ S3_ENDPOINT ENV +:+ "/" +:+ prefix +:+ "/index.m3u8"
  /\ url = videoUrl data.
Proof.
  intros Hid Hok Hr Hnc Hrun clean prefix.
  destruct (createVideoUpload_success ENV mime_lookup uuid now req table data Hok)
    as (Hurl & _ & _ & r' & Hr' & Hpath & _).
  assert (r' = r) as -> by congruence.
  fold clean in Hurl, Hpath.
  split.
  - rewrite Hurl, s3PrefixOf_unfold. reflexivity.
  - rewrite Hurl.
    rewrite (transcodeAndUpload_url ENV path_parse_name floorShare15 env localPath
               filename uuid (s3Path r) uploadToS3 w w' url Hid Hnc Hrun).
    by rewrite Hpath, s3PrefixOf_orNull.
Qed.

Lemma C8_witness :
  exists data url,
    (createVideoUpload sampleENV sampleMimeLookup "id-7" 1000 samplePrefixRequest ∅).2
    = SuccessResponse data
    /\ videoUrl data = "video-streams.http://minio:9000/v2/media/id-7/index.m3u8"
    /\ url = videoUrl data.
Proof.
  eexists _, _. split; [reflexivity|].
  eapply (C8_key_prefix_round_trip sampleENV sampleMimeLookup sampleParseName
            sampleFloorShare15 "id-7" 1000 samplePrefixRequest ∅ _ _ sampleEnv
            "uploads/id-7" "clip.mp4" false
            (mkWorld (createVideoUpload sampleENV sampleMimeLookup "id-7" 1000
                        samplePrefixRequest ∅).1 false [])).
  - reflexivity.
  - reflexivity.
  - vm_compute. reflexivity.
  - intros r0. vm_compute. intros [= <-]. discriminate.
  - vm_compute. reflexivity.
Defined.

(** ** The fallback of the HLS step *)

Lemma bind_Ok {A B} (m : M A) (k : A -> M B) (w w1 : World) (a : A) :
  m w = (Ok a, w1) -> bind m k w = k a w1.
Proof. intros H. unfold bind. by rewrite H. Qed.

Lemma bind_Thrown {A B} (m : M A) (k : A -> M B) (w w1 : World) (e : string) :
  m w = (Thrown e, w1) -> bind m k w = (Thrown e, w1).
Proof. intros H. unfold bind. by rewrite H. Qed.

Lemma tryCatch_Ok {A} (m : M A) (h : string -> M A) (w w1 : World) (a : A) :
  m w = (Ok a, w1) -> tryCatch m h w = (Ok a, w1).
Proof. intros H. unfold tryCatch. by rewrite H. Qed.

Lemma tryCatch_Thrown {A} (m : M A) (h : string -> M A) (w w1 : World) (e : string) :
  m w = (Thrown e, w1) -> tryCatch m h w = h e w1.
Proof. intros H. unfold tryCatch. by rewrite H. Qed.

Lemma hlsExecs_app (a b : list Event) : hlsExecs (a ++ b) = (hlsExecs a ++ hlsExecs b)%list.
Proof. apply List.filter_app. Qed.

Lemma hlsExecs_tail (id : string) (evs : list Event) :
  Forall (tailEvent id) evs -> hlsExecs evs = [].
Proof.
  induction 1 as [|e evs He _ IH]; [done|].
  unfold hlsExecs in *. simpl. rewrite IH.
  destruct e as [| | [] | | | | |]; simpl in *; done.
Qed.

(** Computations that cannot throw. *)
Lemma updateRecord_total (now : Z) (id : string) (updates : list FieldUpdate) (w : World) :
  exists r w', updateRecord now id updates w = (Ok r, w').
Proof.
  unfold updateRecord. destruct (updateVideoRecord _ _ _ _). eauto.
Qed.

Lemma setProgress_total (env : Env) (id : string) (p : Z) (w : World) :
  exists w', setProgress env id p w = (Ok tt, w').
Proof.
  unfold setProgress, when. destruct (truthy id); [|by eexists].
  destruct (updateRecord_total (clock env) id [SetProgress p] w) as (r & w' & H).
  exists w'. by rewrite (bind_Ok _ _ _ _ _ H).
Qed.

Lemma recheckRecord_total (env : Env) (id : string) (w : World) :
  exists early w', recheckRecord env id w = (Ok early, w').
Proof.
  unfold recheckRecord. destruct (truthy id); [|by eexists _, _].
  unfold bind at 1, readRecord.
  destruct (getVideoRecord (db w) id) as [r|]; [|by eexists _, _].
  destruct (Status_eqb (status r) Completed); [by eexists _, _|].
  destruct (Status_eqb (status r) Failed); [|by eexists _, _].
  destruct (updateRecord_total (clock env) id
              [SetStatus Processing; SetProgress 25; SetError None] w) as (r' & w' & H).
  eexists _, w'. by rewrite (bind_Ok _ _ _ _ _ H).
Qed.

Lemma hlsBlock_fails (env : Env) (localPath outputDir id cmd : string) (w : World) :
  hlsOk env = false ->
  hlsBlock env localPath outputDir id cmd w
  = (Thrown ("Command failed: " +:+ cmd),
     mkWorld (db w) (messageAcknowledged w) (trace w ++ [EvExec HlsCommand cmd])).
Proof. intros H. unfold hlsBlock, execSync, bind, emit. rewrite H. reflexivity. Qed.

Lemma hlsFallback_run (env : Env) (strategy : Strategy) (localPath outputPath : string)
    (w : World) :
  hlsFallback env strategy localPath outputPath w
  = match strategy with
    | Reencode => (Thrown "Failed to transcode video with reencode", w)
    | _ =>
        let w' :=
          mkWorld (db w) (messageAcknowledged w)
            (trace w ++ [EvExec FallbackCommand
                           (buildOptimizedFFmpegCommand Reencode localPath outputPath)]) in
        if fallbackOk env then (Ok tt, w')
        else (Thrown "Failed to transcode video with both stream copy and re-encoding", w')
    end.
Proof.
  unfold hlsFallback, tryCatch, execSync, bind, emit.
  destruct strategy; try reflexivity; destruct (fallbackOk env); reflexivity.
Qed.

Section Fallback.

Context (ENV : Environment) (path_parse_name : string -> string)
  (floorShare15 : Z -> Z -> Z).

(** When the HLS command fails: the commands run for the HLS step, and the
    exceptions of [transcodeAndUpload]. *)
Lemma transcodeAndUpload_fallback (env : Env) (localPath filename id : string)
    (s3Path : option string) (uploadToS3 : bool) (info : VideoCodecInfo) (w : World) :
  notCompleted id (db w) ->
  mkdirOk env = true ->
  hlsOk env = false ->
  (forall w0, probeOrUnknown env w0 = (Ok info, w0)) ->
  let name := if truthy id then id else path_parse_name filename in
  let outputPath := workDir name +:+ "/index.m3u8" in
  let out := transcodeAndUpload ENV path_parse_name floorShare15 env localPath filename id
               s3Path uploadToS3 w in
  messageAcknowledged out.2 = messageAcknowledged w
  /\ (hasRow id (db w) -> hasRow id (db out.2))
  /\ match recommendedStrategy info with
     | Reencode =>
         out.1 = Thrown "Failed to transcode video with reencode"
         /\ hlsExecs (trace out.2)
            = (hlsExecs (trace w)
                 ++ [EvExec HlsCommand
                       (buildOptimizedFFmpegCommand Reencode localPath outputPath)])%list
     | strategy =>
         hlsExecs (trace out.2)
         = (hlsExecs (trace w)
              ++ [EvExec HlsCommand
                    (buildOptimizedFFmpegCommand strategy localPath outputPath);
                  EvExec FallbackCommand
                    (buildOptimizedFFmpegCommand Reencode localPath outputPath)])%list
         /\ (fallbackOk env = false ->
             out.1 = Thrown "Failed to transcode video with both stream copy and re-encoding")
     end.
Proof.
  intros Hnc Hmk Hhls Hprobe name outputPath out.
  set (R := fun x y : Store * bool => x.2 = y.2 /\ (hasRow id x.1 -> hasRow id y.1)).
  assert (forall now table (b : bool) updates,
            forallb transcoderField updates = true ->
            R (table, b) ((updateVideoRecord now table id updates).1, b)) as Hupd.
  { intros now table b updates _. split; [done|]. simpl. unfold hasRow.
    rewrite updateVideoRecord_lookup, decide_True by done.
    intros [r ->]. by eexists. }
  assert (forall x y, rtc R x y -> x.2 = y.2 /\ (hasRow id x.1 -> hasRow id y.1)) as HR.
  { induction 1 as [|x y z [H1 H2] _ [IH1 IH2]]; [done|]. split; [congruence|tauto]. }
  pose proof (confined_transcodeAndUpload ENV path_parse_name floorShare15 R id Hupd
                env localPath filename s3Path uploadToS3 w) as [Hrtc _].
  apply HR in Hrtc as [Hflag Hrow]. fold out in Hflag, Hrow. simpl in Hflag, Hrow.
  split; [done|]. split; [done|].
  subst out. unfold transcodeAndUpload. fold name.
  destruct (recheckRecord_total env id w) as (early & w1 & Hre).
  assert (early = None) as -> by (eapply recheckRecord_notCompleted; eauto).
  destruct (confined_recheckRecord R id Hupd env w) as (_ & evs1 & Ht1 & Hevs1).
  rewrite Hre in Ht1. simpl in Ht1.
  rewrite (bind_Ok _ _ _ _ _ Hre). rewrite Hmk, bind_ret.
  destruct (setProgress_total env id 25 w1) as (w2 & Hsp).
  destruct (confined_setProgress R id Hupd env 25 w1) as (_ & evs2 & Ht2 & Hevs2).
  rewrite Hsp in Ht2. simpl in Ht2.
  rewrite (bind_Ok _ _ _ _ _ Hsp).
  rewrite (bind_Ok _ _ _ _ _ (Hprobe w2)).
  fold outputPath.
  set (cmd := buildOptimizedFFmpegCommand (recommendedStrategy info) localPath outputPath).
  set (w3 := mkWorld (db w2) (messageAcknowledged w2) (trace w2 ++ [EvExec HlsCommand cmd])).
  assert (hlsExecs (trace w3)
          = (hlsExecs (trace w) ++ [EvExec HlsCommand cmd])%list) as Hw3.
  { subst w3. simpl. rewrite Ht2, Ht1, !hlsExecs_app.
    rewrite (hlsExecs_tail id evs1), (hlsExecs_tail id evs2) by done.
    by rewrite !app_nil_r. }
  pose proof (hlsBlock_fails env localPath (workDir name) id cmd w2 Hhls) as Hblock.
  fold w3 in Hblock.
  pose proof (hlsFallback_run env (recommendedStrategy info) localPath outputPath w3) as Hfb.
  set (w4 := mkWorld (db w3) (messageAcknowledged w3)
               (trace w3 ++ [EvExec FallbackCommand
                               (buildOptimizedFFmpegCommand Reencode localPath outputPath)])).
  assert (hlsExecs (trace w4)
          = (hlsExecs (trace w)
               ++ [EvExec HlsCommand cmd;
                   EvExec FallbackCommand
                     (buildOptimizedFFmpegCommand Reencode localPath outputPath)])%list) as Hw4.
  { change (trace w4)
      with (trace w3 ++ [EvExec FallbackCommand
                           (buildOptimizedFFmpegCommand Reencode localPath outputPath)])%list.
    rewrite hlsExecs_app, Hw3. by rewrite <- app_assoc. }
  subst cmd.
  destruct (recommendedStrategy info) eqn:Hstrategy; cbv beta iota zeta in Hfb; fold w4 in Hfb.
  3: { erewrite bind_Thrown; [|erewrite tryCatch_Thrown; [exact Hfb|exact Hblock]].
       simpl. split; [done|]. exact Hw3. }
  all: destruct (fallbackOk env) eqn:Hfok.
  all: try (erewrite bind_Thrown; [|erewrite tryCatch_Thrown; [exact Hfb|exact Hblock]];
            simpl; split; [exact Hw4|done]).
  all: erewrite bind_Ok; [|erewrite tryCatch_Thrown; [exact Hfb|exact Hblock]].
  all: match goal with
       | |- context [bind ?m ?k ?w0] =>
           assert (confined R (tailEvent id) (bind m k)) as Htail
             by (apply confined_bind;
                 [apply confined_when; by apply confined_mp4Block
                 |intros _; by apply confined_publishBlock]);
           destruct (Htail w0) as (_ & evs4 & Ht4 & Hevs4)
       end.
  all: split; [|discriminate].
  all: rewrite Ht4, hlsExecs_app, (hlsExecs_tail id evs4), app_nil_r by done.
  all: exact Hw4.
Qed.

End Fallback.

(** ** The worker around a run *)

Lemma callbackUpdates_cases (env : Env) :
  callbackUpdates env
  = [SetCallbackStatus CbCompleted; SetCallbackLastAttempt (Some (clock env))]
  \/ callbackUpdates env
     = [SetCallbackRetryCount 1; SetCallbackLastAttempt (Some (clock env))].
Proof.
  unfold callbackUpdates. destruct (webhook env) as [code|msg]; [|by right].
  destruct (code =? 200); [by left|by right].
Qed.

(** A webhook attempt for an existing row: one POST, one rewrite of the row. *)
Lemma sendWebhook_run (env : Env) (id url : string) (payload : Payload)
    (w : World) (r : VideoRecord) :
  db w !! id = Some r ->
  sendWebhook env id url payload w
  = (Ok tt,
     mkWorld (<[id := toRow (mergeUpdates (clock env) r (callbackUpdates env))]> (db w))
       (messageAcknowledged w)
       (trace w ++ [EvPost url payload; EvWrite id (progress r)])).
Proof.
  intros Hr.
  unfold sendWebhook, tryCatch, post, bind, emit, updateRecord, updateVideoRecord,
    getVideoRecord, callbackUpdates.
  destruct (webhook env) as [code|msg]; simpl; [destruct (code =? 200)|];
    simpl; rewrite Hr; simpl; rewrite lookup_insert_eq; simpl;
    by rewrite <- app_assoc.
Qed.

Lemma callbackUpdates_job_fields (env : Env) (r : VideoRecord) :
  let r' := toRow (mergeUpdates (clock env) r (callbackUpdates env)) in
  status r' = status r /\ error r' = orNull (error r) /\ progress r' = progress r
  /\ streamUrl r' = orNull (streamUrl r).
Proof. destruct (callbackUpdates_cases env) as [-> | ->]; done. Qed.

Section WorkerRun.

Context (ENV : Environment) (path_parse_name : string -> string)
  (floorShare15 : Z -> Z -> Z).

(** A delivery that acquires the row continues with [processJob] in the
    acquired world. *)
Lemma deliver_acquired (env : Env) (job : Job) (id : string) (r : VideoRecord)
    (table : Store) :
  uploadId job = Some id ->
  table !! id = Some r ->
  acquirable r = true ->
  channelOpen env = true ->
  deliver ENV path_parse_name floorShare15 env (ParsedJob job) table
  = (tryCatch (processJob ENV path_parse_name floorShare15 env job id)
       (catchBlock env (ParsedJob job)) (acquiredWorld table id r)).2.
Proof.
  intros Hid Hr Hacq Hopen.
  unfold deliver, consume, tryBlock, transitionJob. rewrite Hid. simpl.
  assert (transition id (mkWorld table false [])
          = (Ok (mkTransition true
                   (Some (applyField (applyField r (SetStatus Processing)) (SetProgress 10)))),
             mkWorld (<[id := applyField (applyField r (SetStatus Processing))
                                (SetProgress 10)]> table) false [EvWrite id 10])) as Htr.
  { unfold transition. simpl.
    rewrite (safelyTransitionToProcessing_acquired table id r Hr Hacq). simpl.
    by rewrite lookup_insert_eq. }
  unfold tryCatch at 1.
  rewrite (bind_Ok _ _ _ _ _ Htr). simpl.
  erewrite bind_Ok; [|by apply ackMessage_open].
  reflexivity.
Qed.

(** Once the message is acknowledged, the [catch] block only reports. *)
Lemma catchBlock_acknowledged (env : Env) (d : Delivery) (e : string) (w : World) :
  messageAcknowledged w = true ->
  catchBlock env d e w = reportFailure env d e w.
Proof.
  intros H. unfold catchBlock, bind, isAcknowledged, when. by rewrite H.
Qed.

(** [reportFailure] on an existing row marks it failed with the message. *)
Lemma reportFailure_marks_failed (env : Env) (job : Job) (id e : string)
    (w : World) (r : VideoRecord) :
  uploadId job = Some id ->
  db w !! id = Some r ->
  truthy e = true ->
  exists r', db (reportFailure env (ParsedJob job) e w).2 !! id = Some r'
             /\ status r' = Failed /\ error r' = Some e.
Proof.
  intros Hid Hr He.
  unfold reportFailure. rewrite Hid.
  set (r1 := toRow (mergeUpdates (clock env) r [SetStatus Failed; SetError (Some e)])).
  assert (status r1 = Failed /\ error r1 = Some e) as [Hs1 He1].
  { subst r1. simpl. unfold orNull, truthyO. by rewrite He. }
  assert (updateRecord (clock env) id [SetStatus Failed; SetError (Some e)] w
          = (Ok (Some (mergeUpdates (clock env) r [SetStatus Failed; SetError (Some e)])),
             mkWorld (<[id := r1]> (db w)) (messageAcknowledged w)
               (trace w ++ [EvWrite id (progress r1)]))) as Hupd.
  { unfold updateRecord, updateVideoRecord, getVideoRecord. rewrite Hr. simpl.
    by rewrite lookup_insert_eq. }
  unfold tryCatch at 1.
  rewrite (bind_Ok _ _ _ _ _ Hupd).
  unfold cleanupVideoFiles. unfold bind at 1, emit at 1. cbv beta iota zeta.
  destruct (jobCallbackUrl job) as [url|]; simpl.
  2: { exists r1. by rewrite lookup_insert_eq. }
  unfold when. destruct (truthy url); simpl.
  2: { exists r1. by rewrite lookup_insert_eq. }
  erewrite sendWebhook_run; [|simpl; apply lookup_insert_eq].
  simpl. eexists. rewrite lookup_insert_eq. split; [reflexivity|].
  destruct (callbackUpdates_job_fields env r1) as (Hs & Herr & _).
  rewrite Hs, Herr, Hs1, He1. split; [done|].
  unfold orNull, truthyO. by rewrite He.
Qed.

End WorkerRun.
(** C7: when the HLS command fails in the run of a job, a copy or
    selective strategy runs exactly one more HLS command, the full
    re-encode command (libx264 video, AAC audio) reading the same input
    file and writing the same playlist; when that one fails too, or when
    the strategy was re-encode already (no second command then),
    [transcodeAndUpload] throws and the record ends failed with the message
    thrown.  The command lines are spelled out; [q] is the double quote. *)
Theorem C7_fallback_once (ENV : Environment) (path_parse_name : string -> string)
    (floorShare15 : Z -> Z -> Z) (env : Env) (job : Job) (id : string)
    (r : VideoRecord) (table : Store) (info : VideoCodecInfo) :
  uploadId job = Some id ->
  table !! id = Some r ->
  acquirable r = true ->
  channelOpen env = true ->
  mkdirOk env = true ->
  hlsOk env = false ->
  (probeOrUnknown env (acquiredWorld table id r)).1 = Ok info ->
  let name := if truthy id then id else path_parse_name (jobFilename job) in
  let q := String "034"%char EmptyString in
  let input := q +:+ filePath job +:+ q in
  let output := q +:+ ("controllers/videos/" +:+ name +:+ "/index.m3u8") +:+ q in
  let copyCommand :=
    "ffmpeg -i " +:+ input
      +:+ " -c copy -start_number 0 -hls_time 3 -hls_list_size 0 -f hls " +:+ output in
  let selectiveCommand :=
    "ffmpeg -i " +:+ input
      +:+ " -c:v copy -c:a aac -b:a 128k -start_number 0 -hls_time 3 -hls_list_size 0 -f hls "
      +:+ output in
  let reencodeCommand :=
    "ffmpeg -i " +:+ input
      +:+ " -c:v libx264 -preset medium -crf 23 -c:a aac -b:a 128k -start_number 0 -hls_time 3 -hls_list_size 0 -f hls "
      +:+ output in
  let out :=
    transcodeAndUpload ENV path_parse_name floorShare15 env (filePath job)
      (jobFilename job) id (jobS3Path job) (jobUploadToS3 job)
      (acquiredWorld table id r) in
  let final := deliver ENV path_parse_name floorShare15 env (ParsedJob job) table in
  let failedWith (msg : string) :=
    out.1 = Thrown msg
    /\ exists r', db final !! id = Some r' /\ status r' = Failed /\ error r' = Some msg in
  match recommendedStrategy info with
  | Copy =>
      hlsExecs (trace out.2)
      = [EvExec HlsCommand copyCommand; EvExec FallbackCommand reencodeCommand]
      /\ (fallbackOk env = false ->
          failedWith "Failed to transcode video with both stream copy and re-encoding")
  | Selective =>
      hlsExecs (trace out.2)
      = [EvExec HlsCommand selectiveCommand; EvExec FallbackCommand reencodeCommand]
      /\ (fallbackOk env = false ->
          failedWith "Failed to transcode video with both stream copy and re-encoding")
  | Reencode =>
      hlsExecs (trace out.2) = [EvExec HlsCommand reencodeCommand]
      /\ failedWith "Failed to transcode video with reencode"
  end.
Proof.
  intros Hid Hr Hacq Hopen Hmk Hhls Hinfo name q input output
    copyCommand selectiveCommand reencodeCommand out final failedWith.
  assert (forall w0, probeOrUnknown env w0 = (Ok info, w0)) as Hprobe.
  { destruct (probeOrUnknown_pure env) as (info' & Hp).
    rewrite Hp in Hinfo. simpl in Hinfo. injection Hinfo as ->. exact Hp. }
  assert (notCompleted id (db (acquiredWorld table id r))) as Hnc.
  { intros r'. simpl. rewrite lookup_insert_eq. by intros [= <-]. }
  assert (hasRow id (db (acquiredWorld table id r))) as Hrow.
  { unfold hasRow. simpl. rewrite lookup_insert_eq. by eexists. }
  pose proof (transcodeAndUpload_fallback ENV path_parse_name floorShare15 env
                (filePath job) (jobFilename job) id (jobS3Path job) (jobUploadToS3 job)
                info (acquiredWorld table id r) Hnc Hmk Hhls Hprobe) as Hfb.
  cbv zeta in Hfb. fold name out in Hfb.
  destruct Hfb as (Hflag & Hrows & Hcases).
  specialize (Hrows Hrow). destruct Hrows as [r3 Hr3].
  assert (forall msg, truthy msg = true -> out.1 = Thrown msg -> failedWith msg) as Hfail.
  { intros msg Hmsg Hthrown. split; [exact Hthrown|].
    subst final.
    rewrite (deliver_acquired ENV path_parse_name floorShare15 env job id r table
               Hid Hr Hacq Hopen).
    assert (processJob ENV path_parse_name floorShare15 env job id
              (acquiredWorld table id r) = (Thrown msg, out.2)) as Hjob.
    { unfold processJob. apply bind_Thrown. fold out.
      rewrite <- Hthrown. by destruct out. }
    rewrite (tryCatch_Thrown _ _ _ _ _ Hjob).
    rewrite catchBlock_acknowledged by (rewrite Hflag; reflexivity).
    by apply (reportFailure_marks_failed env job id msg out.2 r3). }
  destruct (recommendedStrategy info); simpl in Hcases |- *.
  - destruct Hcases as [Hexec Hthrow].
    split; [exact Hexec|].
    intros Hfok. by apply Hfail; [|apply Hthrow].
  - destruct Hcases as [Hexec Hthrow].
    split; [exact Hexec|].
    intros Hfok. by apply Hfail; [|apply Hthrow].
  - destruct Hcases as [Hthrow Hexec].
    split; [exact Hexec|].
    by apply Hfail.
Qed.

Lemma C7_witness :
  let q := String "034"%char EmptyString in
  let input := q +:+ "uploads/v1" +:+ q in
  let output := q +:+ "controllers/videos/v1/index.m3u8" +:+ q in
  let out :=
    transcodeAndUpload sampleENV sampleParseName sampleFloorShare15 sampleEnvHlsFails
      "uploads/v1" "clip.mp4" "v1" None false
      (acquiredWorld {["v1" := sampleRecord "v1" Uploading 0]} "v1"
         (sampleRecord "v1" Uploading 0)) in
  let final :=
    deliver sampleENV sampleParseName sampleFloorShare15 sampleEnvHlsFails
      (ParsedJob (sampleJob "v1" false)) {["v1" := sampleRecord "v1" Uploading 0]} in
  hlsExecs (trace out.2)
  = [EvExec HlsCommand
       ("ffmpeg -i " +:+ input
          +:+ " -c copy -start_number 0 -hls_time 3 -hls_list_size 0 -f hls " +:+ output);
     EvExec FallbackCommand
       ("ffmpeg -i " +:+ input
          +:+ " -c:v libx264 -preset medium -crf 23 -c:a aac -b:a 128k -start_number 0 -hls_time 3 -hls_list_size 0 -f hls "
          +:+ output)]
  /\ (fallbackOk sampleEnvHlsFails = false ->
      out.1 = Thrown "Failed to transcode video with both stream copy and re-encoding"
      /\ exists r', db final !! "v1" = Some r' /\ status r' = Failed
           /\ error r'
              = Some "Failed to transcode video with both stream copy and re-encoding").
Proof.
  apply (C7_fallback_once sampleENV sampleParseName sampleFloorShare15 sampleEnvHlsFails
           (sampleJob "v1" false) "v1" (sampleRecord "v1" Uploading 0)
           {["v1" := sampleRecord "v1" Uploading 0]}
           (mkVideoCodecInfo "h264" "aac" (Some "High") (Some "40")
              "mov,mp4,m4a,3gp,3g2,mj2" true Copy)); reflexivity.
Defined.

(** ** The consumer acknowledges once, right after the acquisition *)

Section Acknowledgement.

Context (ENV : Environment) (path_parse_name : string -> string)
  (floorShare15 : Z -> Z -> Z).





End Acknowledgement.




(** ** The outcome of a delivery *)

Lemma confined_run (R : relation (Store * bool)) (P : Event -> Prop) {A} (m : M A)
    (w w' : World) (res : Result A) :
  confined R P m -> m w = (res, w') -> extends R P w w'.
Proof. intros Hm Hrun. specialize (Hm w). by rewrite Hrun in Hm. Qed.

Lemma transcoderEvent_noPost (id : string) (e : Event) : transcoderEvent id e -> noPost e.
Proof. destruct e; simpl; try done. Qed.

Lemma transcoderField_jobField (updates : list FieldUpdate) :
  forallb transcoderField updates = true -> forallb jobField updates = true.
Proof.
  induction updates as [|u us IH]; simpl; [done|].
  rewrite !andb_true_iff. intros [Hu Hus]. split; [|by apply IH].
  destruct u as [| [] | | | | | | | | | | | | | |]; simpl in *; done.
Qed.

Lemma updateRecord_Some (now : Z) (id : string) (updates : list FieldUpdate)
    (w w' : World) (r : VideoRecord) :
  updateRecord now id updates w = (Ok (Some r), w') ->
  exists row, db w' !! id = Some row.
Proof.
  unfold updateRecord, updateVideoRecord, getVideoRecord.
  destruct (db w !! id) as [r0|]; simpl; [|discriminate].
  intros [= _ <-]. simpl. rewrite lookup_insert_eq. by eexists.
Qed.

Section Outcomes.

Context (ENV : Environment) (path_parse_name : string -> string)
  (floorShare15 : Z -> Z -> Z).
Context (R : relation (Store * bool)) (id : string).

Hypothesis job_updates :
  forall now table b updates,
    forallb jobField updates = true ->
    R (table, b) ((updateVideoRecord now table id updates).1, b).

Hypothesis guard_step :
  forall table b, R (table, b) ((safelyTransitionToProcessing table id).1, b).

Hypothesis flag_step : forall table b b', R (table, b) (table, b').

Lemma Outcome_prefix (env : Env) (w0 w1 w' : World) :
  extends R noPost w0 w1 -> Outcome R env id w1 w' -> Outcome R env id w0 w'.
Proof.
  intros H01 [H|(w2 & url & payload & r & H12 & Hr & Hp & ->)].
  - left. by eapply extends_trans.
  - right. exists w2, url, payload, r. split; [by eapply extends_trans|done].
Qed.

Lemma confined_ackMessage (env : Env) : confined R noPost (ackMessage env).
Proof.
  unfold ackMessage, channelAck.
  apply confined_bind.
  - destruct (channelOpen env); [by apply confined_emit | apply confined_throw].
  - intros _. apply confined_setAcknowledged. intros table b. apply flag_step.
Qed.

(** The end of both branches of the worker: the webhook, if any. *)
Lemma notify_outcome (env : Env) (callback : option string)
    (updatedRecord : option VideoRecord) (payloadOf : VideoRecord -> Payload) (w : World) :
  (forall r, payloadVideoId (payloadOf r) = id) ->
  (is_Some updatedRecord -> is_Some (db w !! id)) ->
  let m :=
    match callback, updatedRecord with
    | Some url, Some r => when (truthy url) (sendWebhook env id url (payloadOf r))
    | _, _ => ret tt
    end in
  (m w).1 = Ok tt /\ Outcome R env id w (m w).2.
Proof.
  intros Hp Hrow m. subst m.
  destruct callback as [url|]; [|split; [done|left; apply extends_refl]].
  destruct updatedRecord as [r|]; [|split; [done|left; apply extends_refl]].
  destruct (truthy url); simpl; [|split; [done|left; apply extends_refl]].
  destruct (Hrow ltac:(by eexists)) as [row Hr].
  split; [by rewrite (sendWebhook_run env id url (payloadOf r) w row Hr)|].
  right. exists w, url, (payloadOf r), row. split; [apply extends_refl|done].
Qed.

Lemma processJob_outcome (env : Env) (job : Job) (w : World) :
  match processJob ENV path_parse_name floorShare15 env job id w with
  | (Ok _, w') => Outcome R env id w w'
  | (Thrown _, w') => extends R noPost w w'
  end.
Proof.
  unfold processJob.
  destruct (transcodeAndUpload ENV path_parse_name floorShare15 env (filePath job)
              (jobFilename job) id (jobS3Path job) (jobUploadToS3 job) w)
    as [[streamUrl|e] w1] eqn:Hrun.
  - assert (extends R noPost w w1) as H01.
    { eapply extends_weaken; [| apply (transcoderEvent_noPost id) |].
      - intros a b Hab; exact Hab.
      - eapply confined_run; [|exact Hrun].
        apply confined_transcodeAndUpload.
        intros now table b updates Hu. by apply job_updates, transcoderField_jobField. }
    rewrite (bind_Ok _ _ _ _ _ Hrun).
    match goal with
    | |- context [bind (updateRecord ?now id ?ups) _ w1] =>
        destruct (updateRecord now id ups w1) as [[updatedRecord|e] w2] eqn:Hupd;
        [|destruct (updateRecord_total now id ups w1) as (? & ? & Ht); congruence];
        assert (extends R noPost w1 w2) as H12
          by (eapply confined_run; [|exact Hupd];
              apply confined_updateRecord; [intros table b; by apply job_updates|done])
    end.
    rewrite (bind_Ok _ _ _ _ _ Hupd).
    unfold cleanupVideoFiles. unfold bind at 1, emit at 1. cbv beta iota zeta.
    match goal with
    | |- context [mkWorld (db w2) ?b ?t] => set (w3 := mkWorld (db w2) b t)
    end.
    assert (extends R noPost w2 w3) as H23.
    { split; [apply rtc_refl|]. eexists. split; [reflexivity|]. by repeat constructor. }
    pose proof (notify_outcome env (jobCallbackUrl job) updatedRecord
                  (fun r => CompletedPayload id (jobFilename job) streamUrl
                              (S3_BUCKET ENV +:+ "." +:+ S3_ENDPOINT ENV +:+ "/"
                                 +:+ s3PrefixOf (jobS3Path job) id +:+ "/thumbnail.jpg")
                              (orNull (mp4Url r)))
                  w3 ltac:(done)) as Hn.
    destruct Hn as [Hok Hout].
    { intros [r Hr]. subst. simpl. eapply updateRecord_Some. exact Hupd. }
    cbv beta zeta in Hok, Hout.
    match goal with
    | |- match ?m w3 with _ => _ end =>
        destruct (m w3) as [[[]|e] w4]; simpl in Hok, Hout; [|discriminate]
    end.
    eapply Outcome_prefix; [|exact Hout].
    eapply extends_trans; [exact H01|]. eapply extends_trans; [exact H12|exact H23].
  - rewrite (bind_Thrown _ _ _ _ _ Hrun).
    eapply extends_weaken; [| apply (transcoderEvent_noPost id) |].
    + intros a b Hab; exact Hab.
    + eapply confined_run; [|exact Hrun].
      apply confined_transcodeAndUpload.
      intros now table b updates Hu. by apply job_updates, transcoderField_jobField.
Qed.

Lemma reportFailure_outcome (env : Env) (d : Delivery) (e : string) (w : World) :
  deliveryId d = None \/ deliveryId d = Some id ->
  Outcome R env id w (reportFailure env d e w).2.
Proof.
  intros Hd. unfold reportFailure.
  destruct d as [| |job]; try (left; apply extends_refl).
  simpl in Hd. destruct Hd as [-> | ->].
  { destruct (bindThrows env); left; apply extends_refl. }
  match goal with
  | |- context [bind (updateRecord ?now id ?ups) _] =>
      destruct (updateRecord_total now id ups w) as (updatedRecord & w1 & Hupd);
      assert (extends R noPost w w1) as H01
        by (eapply confined_run; [|exact Hupd];
            apply confined_updateRecord; [intros table b; by apply job_updates|done])
  end.
  unfold tryCatch at 1.
  rewrite (bind_Ok _ _ _ _ _ Hupd).
  unfold cleanupVideoFiles. unfold bind at 1, emit at 1. cbv beta iota zeta.
  match goal with
  | |- context [mkWorld (db w1) ?b ?t] => set (w2 := mkWorld (db w1) b t)
  end.
  assert (extends R noPost w1 w2) as H12.
  { split; [apply rtc_refl|]. eexists. split; [reflexivity|]. by repeat constructor. }
  pose proof (notify_outcome env (jobCallbackUrl job) updatedRecord
                (fun _ => FailedPayload id (jobFilename job) e) w2 ltac:(done)) as Hn.
  destruct Hn as [Hok Hout].
  { intros [r Hr]. subst. simpl. eapply updateRecord_Some. exact Hupd. }
  cbv beta zeta in Hok, Hout.
  match goal with
  | |- context [match ?m w2 with _ => _ end] =>
      destruct (m w2) as [[[]|e'] w3]; simpl in Hok, Hout; [|discriminate]
  end.
  simpl. eapply Outcome_prefix; [|exact Hout].
  eapply extends_trans; [exact H01|exact H12].
Qed.

Lemma catchBlock_outcome (env : Env) (d : Delivery) (e : string) (w : World) :
  deliveryId d = None \/ deliveryId d = Some id ->
  Outcome R env id w (catchBlock env d e w).2.
Proof.
  intros Hd. unfold catchBlock, bind at 1, isAcknowledged.
  destruct (messageAcknowledged w); simpl.
  - rewrite bind_ret. by apply reportFailure_outcome.
  - destruct (ackMessage env w) as [[[]|e'] w1] eqn:Hack.
    + erewrite bind_Ok; [|by apply tryCatch_Ok].
      eapply Outcome_prefix; [|by apply reportFailure_outcome].
      eapply confined_run; [apply confined_ackMessage|exact Hack].
    + erewrite bind_Ok; [|by erewrite tryCatch_Thrown].
      eapply Outcome_prefix; [|by apply reportFailure_outcome].
      eapply confined_run; [apply confined_ackMessage|exact Hack].
Qed.

Lemma tryBlock_outcome (env : Env) (d : Delivery) (w : World) :
  deliveryId d = None \/ deliveryId d = Some id ->
  match tryBlock ENV path_parse_name floorShare15 env d w with
  | (Ok _, w') => Outcome R env id w w'
  | (Thrown _, w') => extends R noPost w w'
  end.
Proof.
  intros Hd. unfold tryBlock.
  assert (forall w0, match ackMessage env w0 with
                     | (Ok _, w') => Outcome R env id w0 w'
                     | (Thrown _, w') => extends R noPost w0 w'
                     end) as Hack.
  { intros w0. destruct (ackMessage env w0) as [[[]|e] w1] eqn:H; [left|];
      (eapply confined_run; [apply confined_ackMessage|exact H]). }
  destruct d as [| |job]; [apply extends_refl | apply Hack |].
  simpl in Hd. unfold transitionJob. destruct Hd as [Hid | Hid]; rewrite Hid.
  { destruct (bindThrows env); [apply extends_refl|].
    rewrite bind_ret. simpl. apply Hack. }
  destruct (transition_trace id w) as (tr & table' & evs & Htr & Hevs).
  assert (extends R noPost w (mkWorld table' (messageAcknowledged w) (trace w ++ evs))) as H01.
  { eapply extends_weaken; [| |eapply confined_run; [|exact Htr]].
    - intros a b Hab; exact Hab.
    - intros e He; exact He.
    - apply confined_transition; [intros table b; apply guard_step|done]. }
  rewrite (bind_Ok _ _ _ _ _ Htr).
  set (w1 := mkWorld table' (messageAcknowledged w) (trace w ++ evs)) in *.
  destruct (negb (success tr)).
  { specialize (Hack w1). destruct (ackMessage env w1) as [[[]|e] w2].
    - by eapply Outcome_prefix.
    - by eapply extends_trans. }
  destruct (ackMessage env w1) as [[[]|e] w2] eqn:Hack1.
  - rewrite (bind_Ok _ _ _ _ _ Hack1).
    assert (extends R noPost w w2) as H02.
    { eapply extends_trans; [exact H01|].
      eapply confined_run; [apply confined_ackMessage|exact Hack1]. }
    pose proof (processJob_outcome env job w2) as Hjob.
    destruct (processJob ENV path_parse_name floorShare15 env job id w2) as [[[]|e] w3].
    + by eapply Outcome_prefix.
    + by eapply extends_trans.
  - rewrite (bind_Thrown _ _ _ _ _ Hack1).
    eapply extends_trans; [exact H01|].
    eapply confined_run; [apply confined_ackMessage|exact Hack1].
Qed.

(** Every delivery is a run without POST, possibly closed by one webhook
    attempt for the row of the job. *)
Theorem deliver_outcome (env : Env) (d : Delivery) (table : Store) :
  deliveryId d = None \/ deliveryId d = Some id ->
  Outcome R env id (mkWorld table false [])
    (deliver ENV path_parse_name floorShare15 env d table).
Proof.
  intros Hd. unfold deliver, consume. simpl.
  pose proof (tryBlock_outcome env d (mkWorld table false []) Hd) as Htry.
  unfold tryCatch.
  destruct (tryBlock ENV path_parse_name floorShare15 env d (mkWorld table false []))
    as [[[]|e] w1]; simpl.
  - exact Htry.
  - eapply Outcome_prefix; [exact Htry|]. by apply catchBlock_outcome.
Qed.

End Outcomes.

(** ** Rows under the operations of the worker *)

Lemma safelyTransitionToProcessing_lookup (table : Store) (id k : string) :
  (safelyTransitionToProcessing table id).1 !! k
  = if decide (id = k)
    then (fun r => if acquirable r
                   then applyField (applyField r (SetStatus Processing)) (SetProgress 10)
                   else r) <$> table !! id
    else table !! k.
Proof.
  destruct (table !! id) as [r|] eqn:Hr.
  - destruct (acquirable r) eqn:Hacq.
    + rewrite (safelyTransitionToProcessing_acquired table id r Hr Hacq). simpl.
      rewrite lookup_insert. destruct (decide (id = k)); [by rewrite Hacq|done].
    + rewrite safelyTransitionToProcessing_refused
        by (intros r0 Hr0; congruence).
      simpl. destruct (decide (id = k)) as [<-|]; [by rewrite Hr, Hacq|done].
  - rewrite safelyTransitionToProcessing_refused by (intros r0 Hr0; congruence).
    simpl. destruct (decide (id = k)) as [<-|]; [by rewrite Hr|done].
Qed.

Lemma callbackFields_spread (updates : list FieldUpdate) (r : VideoRecord) :
  forallb jobField updates = true ->
  callbackFields (spread r updates) = callbackFields r.
Proof.
  unfold spread. revert r.
  induction updates as [|u us IH]; intros r Hu; simpl; [done|].
  simpl in Hu. apply andb_true_iff in Hu as [Hu Hus].
  rewrite (IH _ Hus). by destruct u.
Qed.

Lemma callbackFields_row (now : Z) (updates : list FieldUpdate) (r : VideoRecord) :
  forallb jobField updates = true ->
  callbackFields (toRow (mergeUpdates now r updates)) = callbackFields r.
Proof.
  intros Hu. unfold mergeUpdates.
  case_bool_decide; unfold callbackFields; simpl;
    by injection (callbackFields_spread updates r Hu) as -> -> ->.
Qed.

Lemma sameCallback_job_updates (id : string) :
  forall now table (b : bool) updates,
    forallb jobField updates = true ->
    sameCallback id (table, b) ((updateVideoRecord now table id updates).1, b).
Proof.
  intros now table b updates Hu. unfold sameCallback. simpl.
  rewrite updateVideoRecord_lookup, decide_True by done.
  destruct (table !! id) as [r|]; simpl; [|done].
  by rewrite callbackFields_row.
Qed.

Lemma sameCallback_guard (id : string) :
  forall table (b : bool),
    sameCallback id (table, b) ((safelyTransitionToProcessing table id).1, b).
Proof.
  intros table b. unfold sameCallback. simpl.
  rewrite safelyTransitionToProcessing_lookup, decide_True by done.
  destruct (table !! id) as [r|]; simpl; [|done].
  by destruct (acquirable r).
Qed.

Lemma rtc_sameCallback (id : string) (x y : Store * bool) :
  rtc (sameCallback id) x y -> sameCallback id x y.
Proof.
  induction 1 as [|x y z Hxy _ IH]; [done|].
  unfold sameCallback in *. congruence.
Qed.

Lemma noPost_filter (evs : list Event) :
  Forall noPost evs -> List.filter isPost evs = [].
Proof.
  induction 1 as [|e evs He _ IH]; [done|]. simpl. by rewrite He.
Qed.

Lemma noPost_not_In (evs : list Event) (url : string) (payload : Payload) :
  Forall noPost evs -> ~ In (EvPost url payload) evs.
Proof.
  intros Hall Hin. rewrite Forall_forall in Hall.
  apply list_elem_of_In in Hin. by specialize (Hall _ Hin).
Qed.

(** ** Webhook attempts of the worker *)

(** C5, as the code has it: a delivery makes at most one webhook attempt;
    after it [callbackLastAttempt] is the current time; on HTTP 200
    [callbackStatus] is completed and the retry count is untouched; on any
    other outcome [callbackRetryCount] is set to 1 (an increment only when
    it was 0) and [callbackStatus] is left as it was, so the worker never
    sets it to failed. *)
Theorem C5_webhook_attempt (ENV : Environment) (path_parse_name : string -> string)
    (floorShare15 : Z -> Z -> Z) (env : Env) (d : Delivery) (table : Store)
    (url : string) (payload : Payload) :
  In (EvPost url payload) (trace (deliver ENV path_parse_name floorShare15 env d table)) ->
  let id := payloadVideoId payload in
  let final := deliver ENV path_parse_name floorShare15 env d table in
  List.filter isPost (trace final) = [EvPost url payload]
  /\ exists r0 r',
       table !! id = Some r0
       /\ db final !! id = Some r'
       /\ callbackLastAttempt r' = Some (clock env)
       /\ (webhook env = Responded 200 ->
           callbackStatus r' = CbCompleted
           /\ callbackRetryCount r' = callbackRetryCount r0)
       /\ (webhook env <> Responded 200 ->
           callbackRetryCount r' = 1
           /\ callbackStatus r' = callbackStatus r0).
Proof.
  intros Hin id final.
  set (id' := default EmptyString (deliveryId d)).
  assert (deliveryId d = None \/ deliveryId d = Some id') as Hd.
  { subst id'. destruct (deliveryId d); auto. }
  pose proof (deliver_outcome ENV path_parse_name floorShare15 (sameCallback id') id'
                (sameCallback_job_updates id') (sameCallback_guard id')
                ltac:(by intros) env d table Hd) as Hout.
  fold final in Hout, Hin.
  destruct Hout as [(_ & evs & Ht & Hevs)|(w1 & url' & payload' & r & H01 & Hr & Hp & Hfinal)].
  { simpl in Ht. rewrite Ht in Hin. by destruct (noPost_not_In evs url payload Hevs). }
  destruct H01 as (Hrtc & evs & Ht & Hevs). simpl in Ht.
  rewrite (sendWebhook_run env id' url' payload' w1 r Hr) in Hfinal. simpl in Hfinal.
  assert (trace final = (evs ++ [EvPost url' payload'; EvWrite id' (progress r)])%list) as Htf.
  { rewrite Hfinal. simpl. by rewrite Ht. }
  rewrite Htf in Hin. apply in_app_or in Hin as [Hin|Hin].
  { by destruct (noPost_not_In evs url payload Hevs). }
  destruct Hin as [Heq|[Heq|[]]]; [|discriminate].
  injection Heq as <- <-.
  subst id. rewrite Hp.
  split.
  { rewrite Htf, List.filter_app, (noPost_filter evs Hevs). reflexivity. }
  apply rtc_sameCallback in Hrtc. unfold sameCallback in Hrtc. simpl in Hrtc.
  rewrite Hr in Hrtc. simpl in Hrtc.
  destruct (table !! id') as [r0|] eqn:Hr0; [|discriminate].
  simpl in Hrtc. injection Hrtc as Hs Hc Hl.
  exists r0, (toRow (mergeUpdates (clock env) r (callbackUpdates env))).
  split; [done|]. split; [rewrite Hfinal; simpl; apply lookup_insert_eq|].
  unfold callbackUpdates.
  destruct (webhook env) as [code|msg] eqn:Hw.
  - destruct (code =? 200) eqn:Hcode.
    + apply Z.eqb_eq in Hcode as ->. simpl.
      split; [done|]. split; [by intros _|]. by intros [].
    + apply Z.eqb_neq in Hcode. simpl.
      split; [done|]. split; [intros [= ?]; lia| by intros _].
  - simpl. split; [done|]. split; [discriminate| by intros _].
Qed.

Lemma C5_witness :
  let final :=
    deliver sampleENV sampleParseName sampleFloorShare15 sampleEnvHlsFails
      (ParsedJob (sampleJob "v1" false)) {["v1" := sampleRecord "v1" Uploading 0]} in
  let payload :=
    FailedPayload "v1" "clip.mp4"
      "Failed to transcode video with both stream copy and re-encoding" in
  List.filter isPost (trace final) = [EvPost "https://client.example/hook" payload]
  /\ exists r0 r',
       ({["v1" := sampleRecord "v1" Uploading 0]} : Store) !! "v1" = Some r0
       /\ db final !! "v1" = Some r'
       /\ callbackLastAttempt r' = Some (clock sampleEnvHlsFails)
       /\ (webhook sampleEnvHlsFails = Responded 200 ->
           callbackStatus r' = CbCompleted
           /\ callbackRetryCount r' = callbackRetryCount r0)
       /\ (webhook sampleEnvHlsFails <> Responded 200 ->
           callbackRetryCount r' = 1
           /\ callbackStatus r' = callbackStatus r0).
Proof.
  apply (C5_webhook_attempt sampleENV sampleParseName sampleFloorShare15
           sampleEnvHlsFails (ParsedJob (sampleJob "v1" false))
           {["v1" := sampleRecord "v1" Uploading 0]}
           "https://client.example/hook"
           (FailedPayload "v1" "clip.mp4"
              "Failed to transcode video with both stream copy and re-encoding")).
  vm_compute. tauto.
Defined.

(** C5 as stated fails: the same job delivered twice, the HLS commands
    and the webhook (HTTP 500) failing both times.  The second attempt finds
    [callbackRetryCount] at 1 and leaves it at 1. *)
Lemma C5_counterexample :
  let job := ParsedJob (sampleJob "v1" false) in
  let table1 :=
    db (deliver sampleENV sampleParseName sampleFloorShare15 sampleEnvHlsFails job
          {["v1" := sampleRecord "v1" Uploading 0]}) in
  let final :=
    deliver sampleENV sampleParseName sampleFloorShare15 sampleEnvHlsFails job table1 in
  webhook sampleEnvHlsFails = Responded 500
  /\ List.filter isPost (trace final)
     = [EvPost "https://client.example/hook"
          (FailedPayload "v1" "clip.mp4"
             "Failed to transcode video with both stream copy and re-encoding")]
  /\ exists r0 r',
       table1 !! "v1" = Some r0
       /\ db final !! "v1" = Some r'
       /\ callbackRetryCount r0 = 1
       /\ callbackRetryCount r' <> callbackRetryCount r0 + 1.
Proof.
  split; [reflexivity|]. split; [vm_compute; reflexivity|].
  eexists _, _. split; [vm_compute; reflexivity|]. split; [vm_compute; reflexivity|].
  split; [reflexivity|]. vm_compute. discriminate.
Qed.

(** ** Settled callbacks *)

Lemma CallbackStatus_eqb_true (a b : CallbackStatus) :
  CallbackStatus_eqb a b = true <-> a = b.
Proof. unfold CallbackStatus_eqb. apply bool_decide_eq_true. Qed.

Lemma pendingCallback_spec (r : VideoRecord) :
  pendingCallback r = true <->
  is_Some (callbackUrl r) /\ callbackStatus r = CbPending
  /\ callbackRetryCount r < 4 /\ status r = Completed.
Proof.
  unfold pendingCallback.
  rewrite !andb_true_iff, bool_decide_eq_true, CallbackStatus_eqb_true,
    Status_eqb_true, Z.ltb_lt.
  tauto.
Qed.

(** The rows selected by the sweeper query. *)
Lemma getVideosWithPendingCallbacks_In (table : Store) (r : VideoRecord) :
  In r (getVideosWithPendingCallbacks table) <->
  (exists id, table !! id = Some r)
  /\ is_Some (callbackUrl r) /\ callbackStatus r = CbPending
  /\ callbackRetryCount r < 4 /\ status r = Completed.
Proof.
  unfold getVideosWithPendingCallbacks.
  rewrite <- list_elem_of_In, merge_sort_Permutation, list_elem_of_filter,
    pendingCallback_spec, list_elem_of_fmap.
  split.
  - intros (Hp & [id r'] & -> & Hin). apply elem_of_map_to_list in Hin.
    split; [by exists id|done].
  - intros ((id & Hid) & Hp). split; [done|].
    exists (id, r). split; [done|]. by apply elem_of_map_to_list.
Qed.

Lemma noPost_isPostFor (id : string) (e : Event) : noPost e -> isPostFor id e = false.
Proof. by destruct e. Qed.

Lemma rtc_onlyRow (id : string) (x y : Store * bool) :
  rtc (onlyRow id) x y -> onlyRow id x y.
Proof.
  induction 1 as [|x y z Hxy _ IH]; [done|].
  intros k Hk. rewrite (IH k Hk). by apply Hxy.
Qed.

Lemma onlyRow_job_updates (id : string) :
  forall now table (b : bool) updates,
    forallb jobField updates = true ->
    onlyRow id (table, b) ((updateVideoRecord now table id updates).1, b).
Proof.
  intros now table b updates _ k Hk. simpl.
  rewrite updateVideoRecord_lookup. by rewrite decide_False.
Qed.

Lemma onlyRow_guard (id : string) :
  forall table (b : bool),
    onlyRow id (table, b) ((safelyTransitionToProcessing table id).1, b).
Proof.
  intros table b k Hk. simpl.
  rewrite safelyTransitionToProcessing_lookup. by rewrite decide_False.
Qed.

Lemma boundedRetries_job_updates (id : string) :
  forall now table (b : bool) updates,
    forallb jobField updates = true ->
    keeps boundedRetries (table, b) ((updateVideoRecord now table id updates).1, b).
Proof.
  intros now table b updates Hu Hb k r'. simpl.
  rewrite updateVideoRecord_lookup.
  destruct (decide (id = k)) as [<-|]; [|apply Hb].
  destruct (table !! id) as [r|] eqn:Hr; simpl; [|done].
  intros [= <-].
  pose proof (callbackFields_row now updates r Hu) as Hc.
  apply (f_equal (fun x => x.1.2)) in Hc. simpl in Hc.
  specialize (Hb id r Hr). simpl. lia.
Qed.

Lemma boundedRetries_guard (id : string) :
  forall table (b : bool),
    keeps boundedRetries (table, b) ((safelyTransitionToProcessing table id).1, b).
Proof.
  intros table b Hb k r'. simpl.
  rewrite safelyTransitionToProcessing_lookup.
  destruct (decide (id = k)) as [<-|]; [|apply Hb].
  destruct (table !! id) as [r|] eqn:Hr; simpl; [|done].
  intros [= <-]. specialize (Hb id r Hr). by destruct (acquirable r).
Qed.

Lemma fresh_string (id : string) : String "x" id <> id.
Proof.
  intros H. apply (f_equal String.length) in H. simpl in H. lia.
Qed.

Section Settled.

Context (ENV : Environment) (path_parse_name : string -> string)
  (floorShare15 : Z -> Z -> Z).

(** A delivery for a completed record is acknowledged and dropped. *)
Lemma deliver_completed_skipped (env : Env) (d : Delivery) (id : string)
    (r : VideoRecord) (table : Store) :
  deliveryId d = Some id ->
  table !! id = Some r ->
  status r = Completed ->
  channelOpen env = true ->
  deliver ENV path_parse_name floorShare15 env d table = mkWorld table true [EvAck].
Proof.
  intros Hd Hr Hs Hopen.
  destruct d as [| |job]; try discriminate. simpl in Hd.
  unfold deliver, consume, tryBlock, transitionJob. rewrite Hd. simpl.
  assert (transition id (mkWorld table false [])
          = (Ok (mkTransition false (Some r)), mkWorld table false [])) as Htr.
  { unfold transition. simpl.
    rewrite safelyTransitionToProcessing_refused.
    - by rewrite Hr.
    - intros r0 Hr0. assert (r0 = r) as -> by congruence.
      unfold acquirable. rewrite Hs. reflexivity. }
  unfold tryCatch. rewrite (bind_Ok _ _ _ _ _ Htr). simpl.
  by rewrite ackMessage_open.
Qed.

(** A delivery that is not for the row [id] leaves that row alone and makes
    no POST for it. *)
Lemma deliver_other_row (env : Env) (d : Delivery) (id : string) (table : Store) :
  deliveryId d <> Some id ->
  db (deliver ENV path_parse_name floorShare15 env d table) !! id = table !! id
  /\ Forall (fun e => isPostFor id e = false)
       (trace (deliver ENV path_parse_name floorShare15 env d table)).
Proof.
  intros Hd.
  set (id' := default (String "x" id) (deliveryId d)).
  assert (deliveryId d = None \/ deliveryId d = Some id') as Hd'.
  { subst id'. destruct (deliveryId d); auto. }
  assert (id <> id') as Hne.
  { subst id'. destruct (deliveryId d) as [k|]; simpl.
    - intros ->. by apply Hd.
    - intros H. by apply (fresh_string id). }
  pose proof (deliver_outcome ENV path_parse_name floorShare15 (onlyRow id') id'
                (onlyRow_job_updates id') (onlyRow_guard id')
                ltac:(by intros) env d table Hd') as Hout.
  destruct Hout as [(Hrtc & evs & Ht & Hevs)|(w1 & url & payload & r & H01 & Hr & Hp & Hfinal)].
  - apply rtc_onlyRow in Hrtc. split; [by apply (Hrtc id)|].
    simpl in Ht. rewrite Ht. eapply Forall_impl; [exact Hevs|].
    intros e. apply noPost_isPostFor.
  - destruct H01 as (Hrtc & evs & Ht & Hevs). simpl in Ht.
    apply rtc_onlyRow in Hrtc.
    rewrite (sendWebhook_run env id' url payload w1 r Hr) in Hfinal.
    rewrite Hfinal. simpl. split.
    + rewrite lookup_insert_ne by done. by apply (Hrtc id).
    + rewrite Ht. apply Forall_app. split.
      * eapply Forall_impl; [exact Hevs|]. intros e. apply noPost_isPostFor.
      * repeat constructor. simpl.
        assert (String.eqb (payloadVideoId payload) id = false) as Hneq.
        { apply String.eqb_neq. congruence. }
        destruct payload; simpl in *; exact Hneq.
Qed.

(** No delivery pushes a retry count above four. *)
Lemma deliver_boundedRetries (env : Env) (d : Delivery) (table : Store) :
  boundedRetries table ->
  boundedRetries (db (deliver ENV path_parse_name floorShare15 env d table)).
Proof.
  intros Hb.
  set (id' := default EmptyString (deliveryId d)).
  assert (deliveryId d = None \/ deliveryId d = Some id') as Hd'.
  { subst id'. destruct (deliveryId d); auto. }
  pose proof (deliver_outcome ENV path_parse_name floorShare15 (keeps boundedRetries) id'
                (boundedRetries_job_updates id') (boundedRetries_guard id')
                ltac:(intros ? ? ? H; exact H) env d table Hd') as Hout.
  destruct Hout as [(Hrtc & _)|(w1 & url & payload & r & H01 & Hr & Hp & Hfinal)].
  - by apply (rtc_keeps _ _ _ Hrtc).
  - destruct H01 as (Hrtc & _).
    pose proof (rtc_keeps _ _ _ Hrtc Hb) as Hb1. simpl in Hb1.
    rewrite (sendWebhook_run env id' url payload w1 r Hr) in Hfinal.
    rewrite Hfinal. simpl. intros k r'.
    rewrite lookup_insert. destruct (decide (id' = k)) as [<-|]; [|apply Hb1].
    intros [= <-]. specialize (Hb1 id' r Hr).
    destruct (callbackUpdates_cases env) as [-> | ->]; simpl; [done|lia].
Qed.

End Settled.
(** The session manager and both ingress paths keep the bound too: a new
    row starts at 0, and the ingress updates do not write the count. *)
Lemma boundedRetries_ingress (ENV : Environment) (mime_lookup : string -> option string)
    (now : Z) (uuid id storagePath : string) (req : CreateRequest)
    (renameOk publishOk : bool) (file : option UploadedFile)
    (metadataFilename : option string) (table : Store) :
  boundedRetries table ->
  boundedRetries (createVideoUpload ENV mime_lookup uuid now req table).1
  /\ boundedRetries (directUpload ENV mime_lookup now renameOk publishOk id file table).1.1
  /\ boundedRetries (onUploadFinish now id storagePath metadataFilename table).1.
Proof.
  intros Hb.
  assert (forall updates,
            (forall r, callbackRetryCount (toRow (mergeUpdates now r updates))
                       = callbackRetryCount r) ->
            boundedRetries (updateVideoRecord now table id updates).1) as Hupd.
  { intros updates Hc k r'. rewrite updateVideoRecord_lookup.
    destruct (decide (id = k)) as [<-|]; [|apply Hb].
    destruct (table !! id) as [r|] eqn:Hr; simpl; [|done].
    intros [= <-]. rewrite Hc. by apply (Hb id). }
  split; [|split].
  - unfold createVideoUpload.
    repeat (case_match; simpl; try exact Hb).
    unfold createVideoRecord in *.
    destruct (table !! uuid) eqn:Hfree; [discriminate|].
    simplify_eq. intros k r'. rewrite lookup_insert.
    destruct (decide (uuid = k)) as [<-|]; [|apply Hb].
    intros [= <-]. simpl. lia.
  - unfold directUpload.
    destruct file as [f|]; [|exact Hb].
    destruct (getVideoRecord table id) as [r|]; [|exact Hb].
    destruct (negb (Status_eqb (status r) Uploading)); [exact Hb|].
    match goal with
    | |- context [updateVideoRecord now table id ?ups] =>
        specialize (Hupd ups ltac:(by intros)); destruct (updateVideoRecord now table id ups)
          as [table' [r'|]]
    end; repeat (case_match; simpl; try exact Hb; try exact Hupd).
  - unfold onUploadFinish.
    destruct (getVideoRecord table id) as [r|]; [|exact Hb].
    specialize (Hupd [SetProgress 0] ltac:(by intros)).
    destruct (updateVideoRecord now table id [SetProgress 0]) as [table' [r'|]]; exact Hupd.
Qed.
Section SettledRuns.

Context (ENV : Environment) (path_parse_name : string -> string)
  (floorShare15 : Z -> Z -> Z).

(** C4, as the code has it.  The sweeper query only selects rows with a
    callback URL, [callbackStatus] pending, fewer than four recorded
    failures and status completed, so a row whose callback is settled is
    never selected.  A record whose status is completed is never processed
    again: on a channel that accepts acknowledgements every later delivery
    leaves it as it is and makes no POST for it.  No delivery raises
    [callbackRetryCount] above 4.  (The inline attempt itself does not look
    at [callbackStatus].) *)
Theorem C4_settled_callbacks (ds : list (Env * Delivery)) (table : Store)
    (id : string) (r : VideoRecord) :
  table !! id = Some r ->
  status r = Completed ->
  Forall (fun ed => channelOpen ed.1 = true) ds ->
  boundedRetries table ->
  let run := deliverAll ENV path_parse_name floorShare15 ds table in
  run.1 !! id = Some r
  /\ Forall (fun e => isPostFor id e = false) run.2
  /\ (forall r', In r' (getVideosWithPendingCallbacks run.1) ->
        is_Some (callbackUrl r') /\ callbackStatus r' = CbPending
        /\ callbackRetryCount r' < 4 /\ status r' = Completed)
  /\ (callbackStatus r <> CbPending -> ~ In r (getVideosWithPendingCallbacks run.1))
  /\ boundedRetries run.1.
Proof.
  intros Hr Hs Hopen Hb run.
  assert (run.1 !! id = Some r
          /\ Forall (fun e => isPostFor id e = false) run.2
          /\ boundedRetries run.1) as (H1 & H2 & H3).
  { subst run. revert table Hr Hb.
    induction Hopen as [|[env d] rest Hopen1 _ IH]; intros table Hr Hb; simpl.
    { split; [done|]. split; [constructor|done]. }
    simpl in Hopen1.
    set (w := deliver ENV path_parse_name floorShare15 env d table).
    assert (db w !! id = Some r /\ Forall (fun e => isPostFor id e = false) (trace w))
      as [Hrow Hposts].
    { destruct (decide (deliveryId d = Some id)) as [Hd|Hd].
      - subst w.
        rewrite (deliver_completed_skipped ENV path_parse_name floorShare15 env d id r
                   table Hd Hr Hs Hopen1).
        simpl. split; [done|]. by repeat constructor.
      - destruct (deliver_other_row ENV path_parse_name floorShare15 env d id table Hd)
          as [Hrow Hposts].
        fold w in Hrow, Hposts. split; [congruence|done]. }
    assert (boundedRetries (db w)) as Hbw by (by apply deliver_boundedRetries).
    destruct (IH (db w) Hrow Hbw) as (IH1 & IH2 & IH3).
    destruct (deliverAll ENV path_parse_name floorShare15 rest (db w)) as [table' evs].
    simpl in *. split; [done|]. split; [by apply Forall_app|done]. }
  split; [done|]. split; [done|]. split.
  { intros r' Hin. by apply getVideosWithPendingCallbacks_In in Hin as (_ & Hp). }
  split; [|done].
  intros Hnp Hin. apply getVideosWithPendingCallbacks_In in Hin as (_ & _ & Hp & _).
  by apply Hnp.
Qed.

End SettledRuns.

Lemma C4_witness :
  let run :=
    deliverAll sampleENV sampleParseName sampleFloorShare15
      [(sampleEnv, ParsedJob (sampleJob "v1" false));
       (sampleEnvHlsFails, ParsedJob (sampleJob "v1" true))]
      {["v1" := sampleCompletedRecord]} in
  run.1 !! "v1" = Some sampleCompletedRecord
  /\ Forall (fun e => isPostFor "v1" e = false) run.2
  /\ (forall r', In r' (getVideosWithPendingCallbacks run.1) ->
        is_Some (callbackUrl r') /\ callbackStatus r' = CbPending
        /\ callbackRetryCount r' < 4 /\ status r' = Completed)
  /\ (callbackStatus sampleCompletedRecord <> CbPending ->
      ~ In sampleCompletedRecord (getVideosWithPendingCallbacks run.1))
  /\ boundedRetries run.1.
Proof.
  apply (C4_settled_callbacks sampleENV sampleParseName sampleFloorShare15
           [(sampleEnv, ParsedJob (sampleJob "v1" false));
            (sampleEnvHlsFails, ParsedJob (sampleJob "v1" true))]
           {["v1" := sampleCompletedRecord]} "v1" sampleCompletedRecord).
  - reflexivity.
  - reflexivity.
  - repeat constructor.
  - intros k r0 H. apply lookup_singleton_Some in H as [_ <-]. simpl. lia.
Defined.

(** C4 as stated fails: a job whose HLS commands fail reports the failure
    (HTTP 200), which settles [callbackStatus] to completed; the same job
    delivered again is acquired from status failed, succeeds, and POSTs
    once more for the same record. *)
Lemma C4_counterexample :
  let job := ParsedJob (sampleJob "v1" false) in
  let table1 :=
    db (deliver sampleENV sampleParseName sampleFloorShare15 sampleEnvFailureReported job
          {["v1" := sampleRecord "v1" Uploading 0]}) in
  let second := deliver sampleENV sampleParseName sampleFloorShare15 sampleEnv job table1 in
  callbackStatus <$> table1 !! "v1" = Some CbCompleted
  /\ status <$> table1 !! "v1" = Some Failed
  /\ List.filter (isPostFor "v1") (trace second)
     = [EvPost "https://client.example/hook"
          (CompletedPayload "v1" "clip.mp4"
             "video-streams.http://minio:9000/v1/index.m3u8"
             "video-streams.http://minio:9000/v1/thumbnail.jpg" None)].
Proof. repeat split; vm_compute; reflexivity. Qed.

(** ** Further facts about the validation and the channel *)

(** What does hold of the two validation passes: outside direct uploads the
    session runs the very validation of the ingress, and a direct upload
    that the ingress validation accepts is accepted by the session. *)
Lemma validator_symmetry_resumable (ENV : Environment)
    (mime_lookup : string -> option string) (filename type : string) (filesize : Z) :
  type <> "direct" ->
  sessionValidation ENV mime_lookup filename filesize type
  = inr (validateUpload ENV mime_lookup filename filesize).
Proof.
  intros Ht. unfold sessionValidation.
  apply String.eqb_neq in Ht. by rewrite Ht.
Qed.

Lemma validator_direct_within_max (ENV : Environment)
    (mime_lookup : string -> option string) (filename : string) (filesize : Z) :
  filesize <= maxDirectUploadSize ->
  isValid (validateUpload ENV mime_lookup filename filesize) = true ->
  sessionValidation ENV mime_lookup filename filesize "direct"
  = inr (validateUpload ENV mime_lookup filename filesize).
Proof.
  intros Hsize Hvalid. unfold sessionValidation.
  rewrite String.eqb_refl.
  assert ((maxDirectUploadSize <? filesize) = false) as -> by (apply Z.ltb_ge; lia).
  by rewrite Hvalid.
Qed.

(** The filter on "File size" also drops the error about a size that is
    not positive: a direct session with a negative size passes. *)
Example direct_negative_size_accepted :
  sessionValidation sampleENV sampleMimeLookup "a.mp4" (-5) "direct"
  = inr (mkValidationResult true []).
Proof. reflexivity. Qed.

(** On a channel that closed before the acknowledgement, the skip of a
    completed record ends in the [catch] block, which marks the record
    failed and reports the failure. *)
Example closed_channel_skip_marks_failed :
  let final :=
    deliver sampleENV sampleParseName sampleFloorShare15 sampleEnvChannelClosed
      (ParsedJob (sampleJob "v1" false)) {["v1" := sampleCompletedRecord]} in
  countAcks (trace final) = 0%nat
  /\ status <$> db final !! "v1" = Some Failed
  /\ List.filter isPost (trace final)
     = [EvPost "https://client.example/hook"
          (FailedPayload "v1" "clip.mp4" "Channel closed")].
Proof. repeat split; vm_compute; reflexivity. Qed.

(** * Further properties of the sources *)

(** ** The record store *)

Lemma spread_cons (r : VideoRecord) (u : FieldUpdate) (updates : list FieldUpdate) :
  spread r (u :: updates) = spread (applyField r u) updates.
Proof. reflexivity. Qed.




Lemma orNull_idemp (o : option string) : orNull (orNull o) = orNull o.
Proof. unfold orNull. destruct (truthyO o) eqn:H; [by rewrite H|done]. Qed.

Lemma toRow_idemp (r : VideoRecord) : toRow (toRow r) = toRow r.
Proof. unfold toRow. simpl. by rewrite !orNull_idemp. Qed.



(** X2: reading back what was written.  After [updateVideoRecord] the row
    read under the same key is the normalised form of the record returned
    (falsy optional strings are stored as NULL), every other row reads as
    before, and writing the row back with an empty patch changes nothing. *)
Theorem updateVideoRecord_read_back (now now' : Z) (table : Store) (id : string)
    (updates : list FieldUpdate) :
  let out := updateVideoRecord now table id updates in
  getVideoRecord out.1 id = toRow <$> out.2
  /\ (forall k, k <> id -> getVideoRecord out.1 k = getVideoRecord table k)
  /\ updateVideoRecord now' out.1 id [] = (out.1, getVideoRecord out.1 id).
Proof.
  unfold updateVideoRecord, getVideoRecord.
  destruct (table !! id) as [r|] eqn:Hr; simpl.
  - rewrite lookup_insert_eq. split; [done|]. split.
    + intros k Hk. by rewrite lookup_insert_ne.
    + unfold mergeUpdates. simpl. rewrite toRow_idemp. by rewrite insert_insert_eq.
  - rewrite Hr. by repeat split.
Qed.

(** X3: the guard is re-entrant.  Running [safelyTransitionToProcessing]
    again on the table it left gives the same answer and the same table: a
    record that was just acquired (status processing, progress 10) is
    acquired again by a second delivery, and a refusal stays a refusal. *)
Theorem safelyTransitionToProcessing_reentrant (table : Store) (id : string) :
  let first := safelyTransitionToProcessing table id in
  safelyTransitionToProcessing first.1 id = first
  /\ (success first.2 = true ->
      success (safelyTransitionToProcessing first.1 id).2 = true).
Proof.
  cbv zeta.
  assert (safelyTransitionToProcessing (safelyTransitionToProcessing table id).1 id
          = safelyTransitionToProcessing table id) as Heq.
  { destruct (table !! id) as [r|] eqn:Hr; [destruct (acquirable r) eqn:Hacq|].
    - rewrite (safelyTransitionToProcessing_acquired table id r Hr Hacq). simpl.
      set (r' := applyField (applyField r (SetStatus Processing)) (SetProgress 10)).
      rewrite (safelyTransitionToProcessing_acquired (<[id := r']> table) id r').
      + simpl. by rewrite insert_insert_eq.
      + apply lookup_insert_eq.
      + reflexivity.
    - rewrite (safelyTransitionToProcessing_refused table id) by (intros; congruence).
      simpl. by rewrite (safelyTransitionToProcessing_refused table id) by (intros; congruence).
    - rewrite (safelyTransitionToProcessing_refused table id) by (intros; congruence).
      simpl. by rewrite (safelyTransitionToProcessing_refused table id) by (intros; congruence). }
  split; [exact Heq|]. by rewrite Heq.
Qed.

#[local] Instance createdBefore_total : Total createdBefore.
Proof. intros a b. unfold createdBefore. lia. Qed.

#[local] Instance createdBefore_trans : Transitive createdBefore.
Proof. intros a b c. unfold createdBefore. lia. Qed.

#[local] Instance createdAfter_total : Total createdAfter.
Proof. intros a b. unfold createdAfter. lia. Qed.

#[local] Instance createdAfter_trans : Transitive createdAfter.
Proof. intros a b c. unfold createdAfter. lia. Qed.

(** X4: the sweeper query lists the pending callbacks oldest first: the
    result is sorted by creation time, it is a rearrangement of the rows
    that pass the filter, and so never longer than the table. *)
Theorem getVideosWithPendingCallbacks_sorted (table : Store) :
  StronglySorted createdBefore (getVideosWithPendingCallbacks table)
  /\ getVideosWithPendingCallbacks table
     ≡ₚ filter (fun r => pendingCallback r = true) (snd <$> map_to_list table)
  /\ (length (getVideosWithPendingCallbacks table) <= base.size table)%nat.
Proof.
  unfold getVideosWithPendingCallbacks.
  split; [apply StronglySorted_merge_sort; apply _|].
  split; [apply merge_sort_Permutation|].
  rewrite merge_sort_Permutation.
  etrans; [apply length_filter|].
  by rewrite length_fmap, length_map_to_list.
Qed.

(** X5: [getAllVideos] lists every row exactly once, newest first. *)
Theorem getAllVideos_newest_first (table : Store) :
  StronglySorted createdAfter (getAllVideos table)
  /\ getAllVideos table ≡ₚ snd <$> map_to_list table
  /\ length (getAllVideos table) = base.size table
  /\ (forall r, In r (getAllVideos table) <-> exists id, table !! id = Some r).
Proof.
  unfold getAllVideos.
  split; [apply StronglySorted_merge_sort; apply _|].
  split; [apply merge_sort_Permutation|].
  split.
  - by rewrite merge_sort_Permutation, length_fmap, length_map_to_list.
  - intros r. rewrite <- list_elem_of_In, merge_sort_Permutation, list_elem_of_fmap.
    split.
    + intros ([id r'] & -> & Hin). exists id. by apply elem_of_map_to_list.
    + intros (id & Hid). exists (id, r). split; [done|]. by apply elem_of_map_to_list.
Qed.

(** X6: creation never overwrites, and deletion undoes it.  [createVideoRecord]
    succeeds exactly on a key that is not in the table; the row then read
    under the key is the normalised record, and [deleteVideoRecord] of the
    key reports a change and gives back the table as it was.  Deleting a key
    that is not there reports no change and leaves the table as it is. *)
Theorem createVideoRecord_deleteVideoRecord (now : Z) (table : Store) (id : string)
    (data : list FieldUpdate) :
  match createVideoRecord now table id data with
  | None => is_Some (table !! id)
  | Some (table', record) =>
      table !! id = None
      /\ getVideoRecord table' id = Some (toRow record)
      /\ (forall k, k <> id -> getVideoRecord table' k = getVideoRecord table k)
      /\ deleteVideoRecord table' id = (table, true)
  end
  /\ (table !! id = None -> deleteVideoRecord table id = (table, false)).
Proof.
  unfold createVideoRecord, deleteVideoRecord, getVideoRecord.
  destruct (table !! id) as [r|] eqn:Hr.
  - split; [by eexists|done].
  - split.
    + split; [done|]. rewrite lookup_insert_eq. split; [done|]. split.
      * intros k Hk. by rewrite lookup_insert_ne.
      * by rewrite delete_insert_id.
    + intros _. by rewrite delete_id.
Qed.

(** ** The connection loop *)

Lemma connectLoop_spec (connects : nat -> bool) (delay : Z) (remaining i : nat) :
  let out := connectLoop connects delay remaining i in
  match out.1 with
  | Some k =>
      (i <= k < i + remaining)%nat /\ connects k = true
      /\ (forall j, (i <= j < k)%nat -> connects j = false)
      /\ length (List.filter isSleep out.2) = (k - i)%nat
  | None =>
      (forall j, (i <= j < i + remaining)%nat -> connects j = false)
      /\ length (List.filter isSleep out.2) = remaining
  end
  /\ Forall (fun e => isSleep e = true -> e = Sleep delay) out.2.
Proof.
  revert i. induction remaining as [|remaining IH]; intros i; simpl.
  - split; [|constructor]. split; [|done]. intros j Hj. lia.
  - destruct (connects i) eqn:Hi; simpl.
    + split; [|by repeat constructor].
      split; [lia|]. split; [done|]. split; [intros j Hj; lia|].
      by rewrite Nat.sub_diag.
    + specialize (IH (S i)). cbv zeta in IH.
      destruct (connectLoop connects delay remaining (S i)) as [[k|] evs]; simpl in *.
      * destruct IH as [(Hk & Hck & Hbefore & Hlen) Hall].
        split; [|by repeat constructor].
        split; [lia|]. split; [done|]. split.
        -- intros j Hj. destruct (decide (j = i)) as [->|]; [done|]. apply Hbefore. lia.
        -- rewrite Hlen. lia.
      * destruct IH as [(Hnone & Hlen) Hall].
        split; [|by repeat constructor].
        split; [|by rewrite Hlen].
        intros j Hj. destruct (decide (j = i)) as [->|]; [done|]. apply Hnone. lia.
Qed.

(** X7: [connectWithRetry] returns the first connection that succeeds among
    at most [retries] attempts, having slept [delay] once after every failed
    attempt before it; when all [retries] attempts fail it throws, after
    [retries] sleeps (the last failure is followed by a sleep as well). *)
Theorem connectWithRetry_first_success (connects : nat -> bool) (retries : nat)
    (delay : Z) :
  let out := connectWithRetry connects retries delay in
  match out.1 with
  | Some k =>
      (k < retries)%nat /\ connects k = true
      /\ (forall j, (j < k)%nat -> connects j = false)
      /\ length (List.filter isSleep out.2) = k
  | None =>
      (forall j, (j < retries)%nat -> connects j = false)
      /\ length (List.filter isSleep out.2) = retries
  end
  /\ Forall (fun e => isSleep e = true -> e = Sleep delay) out.2.
Proof.
  unfold connectWithRetry.
  pose proof (connectLoop_spec connects delay retries 0) as H. cbv zeta in *.
  destruct (connectLoop connects delay retries 0) as [[k|] evs]; simpl in *.
  - destruct H as [(Hk & Hck & Hbefore & Hlen) Hall].
    split; [|done]. split; [lia|]. split; [done|]. split.
    + intros j Hj. apply Hbefore. lia.
    + rewrite Hlen. lia.
  - destruct H as [(Hnone & Hlen) Hall].
    split; [|done]. split; [|done]. intros j Hj. apply Hnone. lia.
Qed.

(** ** The upload validator *)

Section ValidatorFacts.

Context (ENV : Environment) (mime_lookup : string -> option string).

Lemma validateFileType_valid (name : string) :
  isValid (validateFileType ENV mime_lookup name) = true <->
  truthy name = true
  /\ exists m, mime_lookup name = Some m
       /\ In (normalizeMimeType m) (ALLOWED_FILE_TYPES ENV).
Proof.
  unfold validateFileType.
  destruct (truthy name); simpl; [|split; [done|by intros [? _]]].
  destruct (mime_lookup name) as [m|]; simpl.
  - destruct (inList (normalizeMimeType m) (ALLOWED_FILE_TYPES ENV)) eqn:Hin; simpl.
    + apply inList_In in Hin. split; [|done]. intros _. split; [done|]. by exists m.
    + split; [done|]. intros [_ (m' & [= <-] & Hm)].
      apply inList_In in Hm. congruence.
  - split; [done|]. by intros [_ (m & ? & _)].
Qed.

Lemma validateFileSize_valid (filesize : Z) :
  isValid (validateFileSize ENV filesize) = true <-> 0 < filesize <= MAX_FILE_SIZE ENV.
Proof.
  unfold validateFileSize.
  destruct (filesize <=? 0) eqn:H0; simpl.
  - apply Z.leb_le in H0. split; [done|lia].
  - apply Z.leb_gt in H0.
    destruct (MAX_FILE_SIZE ENV <? filesize) eqn:Hmax; simpl.
    + apply Z.ltb_lt in Hmax. split; [done|lia].
    + apply Z.ltb_ge in Hmax. split; [lia|done].
Qed.

Lemma validateFileType_errors (name : string) :
  (length (errors (validateFileType ENV mime_lookup name)) <= 1)%nat
  /\ Forall (fun e => field e = "filename") (errors (validateFileType ENV mime_lookup name))
  /\ (isValid (validateFileType ENV mime_lookup name) = false ->
      length (errors (validateFileType ENV mime_lookup name)) = 1%nat).
Proof.
  unfold validateFileType.
  destruct (truthy name); simpl; [|by repeat constructor].
  destruct (mime_lookup name) as [m|]; simpl; [|by repeat constructor].
  destruct (inList (normalizeMimeType m) (ALLOWED_FILE_TYPES ENV)); simpl;
    by repeat constructor.
Qed.

Lemma validateFileSize_errors (filesize : Z) :
  (length (errors (validateFileSize ENV filesize)) <= 1)%nat
  /\ Forall (fun e => field e = "filesize") (errors (validateFileSize ENV filesize))
  /\ (isValid (validateFileSize ENV filesize) = false ->
      length (errors (validateFileSize ENV filesize)) = 1%nat).
Proof.
  unfold validateFileSize.
  destruct (filesize <=? 0); simpl; [by repeat constructor|].
  destruct (MAX_FILE_SIZE ENV <? filesize); simpl; by repeat constructor.
Qed.

(** X8: what [validateUpload] accepts.  A pair of a file name and a size is
    valid exactly when the name is not empty, [mime.lookup] knows its type,
    that type (with application/mp4 read as video/mp4) is in the allow-list,
    and the size is positive and at most [MAX_FILE_SIZE]; and it is valid
    exactly when no error is reported. *)
Theorem validateUpload_valid_iff (name : string) (filesize : Z) :
  (isValid (validateUpload ENV mime_lookup name filesize) = true <->
     truthy name = true
     /\ (exists m, mime_lookup name = Some m
           /\ In (normalizeMimeType m) (ALLOWED_FILE_TYPES ENV))
     /\ 0 < filesize <= MAX_FILE_SIZE ENV)
  /\ (isValid (validateUpload ENV mime_lookup name filesize) = true <->
        errors (validateUpload ENV mime_lookup name filesize) = []).
Proof.
  pose proof (validateFileType_valid name) as Htype.
  pose proof (validateFileSize_valid filesize) as Hsize.
  destruct (validateFileType_errors name) as (_ & _ & Hte).
  destruct (validateFileSize_errors filesize) as (_ & _ & Hse).
  unfold validateUpload.
  destruct (isValid (validateFileType ENV mime_lookup name)) eqn:Ht;
    destruct (isValid (validateFileSize ENV filesize)) eqn:Hs; simpl.
  - split; [|done]. split; [|done]. intros _.
    destruct Htype as [Htype _]. destruct (Htype eq_refl) as [? ?].
    destruct Hsize as [Hsize _]. by repeat split; try apply Hsize.
  - specialize (Hse eq_refl).
    destruct (errors (validateFileSize ENV filesize)); [done|]. simpl.
    split; [|done]. split; [done|]. intros (_ & _ & H). apply Hsize in H. done.
  - specialize (Hte eq_refl).
    destruct (errors (validateFileType ENV mime_lookup name)); [done|]. simpl.
    split; [|done]. split; [done|]. intros (H1 & H2 & _).
    destruct Htype as [_ Htype]. by specialize (Htype (conj H1 H2)).
  - specialize (Hte eq_refl).
    destruct (errors (validateFileType ENV mime_lookup name)); [done|]. simpl.
    split; [|done]. split; [done|]. intros (H1 & H2 & _).
    destruct Htype as [_ Htype]. by specialize (Htype (conj H1 H2)).
Qed.

(** X9: the errors of [validateUpload] are at most one about the file name
    followed by at most one about the file size, and an invalid upload has
    at least one. *)
Theorem validateUpload_errors (name : string) (filesize : Z) :
  exists typeErrors sizeErrors,
    errors (validateUpload ENV mime_lookup name filesize) = (typeErrors ++ sizeErrors)%list
    /\ (length typeErrors <= 1)%nat /\ (length sizeErrors <= 1)%nat
    /\ Forall (fun e => field e = "filename") typeErrors
    /\ Forall (fun e => field e = "filesize") sizeErrors
    /\ (typeErrors = [] <-> isValid (validateFileType ENV mime_lookup name) = true)
    /\ (sizeErrors = [] <-> isValid (validateFileSize ENV filesize) = true).
Proof.
  destruct (validateFileType_errors name) as (Htl & Htf & Hte).
  destruct (validateFileSize_errors filesize) as (Hsl & Hsf & Hse).
  unfold validateUpload. simpl.
  eexists _, _. split; [reflexivity|].
  destruct (isValid (validateFileType ENV mime_lookup name)) eqn:Ht;
    destruct (isValid (validateFileSize ENV filesize)) eqn:Hs; simpl;
    repeat split; try done; try (simpl; lia); try constructor;
    try (intros Hnil; first [rewrite Hnil in Hte; by specialize (Hte eq_refl)
                            | rewrite Hnil in Hse; by specialize (Hse eq_refl)]).
Qed.

End ValidatorFacts.

(** ** Session creation and the two ingress paths *)

Section IngressFacts.

Context (ENV : Environment) (mime_lookup : string -> option string).


(** X11: [directUpload] never changes a status and never adds a row.  It
    answers with success exactly when it publishes a job; this needs a file,
    a session in status uploading, a name and size that pass
    [validateUpload], and the move of the file and the publication to
    succeed.  The job then carries the callback URL, the custom path and the
    [uploadToS3] flag of the session, and the row has progress 0 and the
    name of the file.  The answers 400, 404 and 409 leave the table as it
    was. *)
Theorem directUpload_outcome (now : Z) (renameOk publishOk : bool) (id : string)
    (file : option UploadedFile) (table : Store) :
  let out := directUpload ENV mime_lookup now renameOk publishOk id file table in
  (forall k, status <$> out.1.1 !! k = status <$> table !! k)
  /\ match out.1.2 with
     | SuccessResponse data =>
         exists f r,
           file = Some f /\ table !! id = Some r /\ status r = Uploading
           /\ renameOk = true /\ publishOk = true
           /\ let name := if truthy (originalname f) then originalname f else filename r in
              isValid (validateUpload ENV mime_lookup name (size f)) = true
              /\ data = mkDirectData id name
              /\ out.2 = Some (mkJob (Some id) (destination f +:+ "/" +:+ id) name
                                 (callbackUrl r) (s3Path r) (uploadToS3 r))
              /\ out.1.1
                 = <[id := toRow (applyField (applyField r (SetProgress 0))
                                    (SetFilename name))]> table
     | ErrorResponse code _ =>
         out.2 = None
         /\ (code = 400 \/ code = 404 \/ code = 409 \/ code = 500)
         /\ (code <> 500 -> out.1.1 = table)
     end.
Proof.
  cbv zeta. unfold directUpload.
  destruct file as [f|]; [|simpl; by auto 8].
  unfold getVideoRecord.
  destruct (table !! id) as [r|] eqn:Hr; [|simpl; by auto 8].
  destruct (Status_eqb (status r) Uploading) eqn:Hs; cbn [negb]; [|simpl; by auto 8].
  apply Status_eqb_true in Hs.
  destruct (isValid (validateUpload ENV mime_lookup
              (if truthy (originalname f) then originalname f else filename r) (size f)))
    eqn:Hv; cbn [negb]; [|simpl; by auto 8].
  destruct renameOk; cbn [negb];
    [|simpl; split; [done|]; split; [done|]; split; [auto 8|done]].
  unfold updateVideoRecord, getVideoRecord. rewrite Hr.
  assert (forall k row, status row = status r ->
            status <$> <[id := row]> table !! k = status <$> table !! k) as Hstatus.
  { intros k row Hrow. destruct (decide (k = id)) as [->|Hk].
    - rewrite lookup_insert_eq, Hr. simpl. by rewrite Hrow.
    - by rewrite lookup_insert_ne. }
  destruct publishOk; simpl.
  - split; [intros k; by apply Hstatus|]. exists f, r. by repeat split.
  - split; [intros k; by apply Hstatus|]. split; [done|]. split; [auto 8|done].
Qed.


(** X13: the resumable ingress accepts what the session accepted.  A
    request for a resumable upload that [createVideoUpload] accepted passes
    [onUploadCreate] with the same file name and size on the table the
    session left.  Moreover an upload that declares no length, or carries no
    file name in its metadata, is let through for any record in status
    uploading without being validated. *)
Theorem resumable_session_passes_onUploadCreate (uuid : string) (now : Z)
    (req : CreateRequest) (table : Store) (data : SessionData) :
  reqType req <> "direct" ->
  (createVideoUpload ENV mime_lookup uuid now req table).2 = SuccessResponse data ->
  let table' := (createVideoUpload ENV mime_lookup uuid now req table).1 in
  onUploadCreate ENV mime_lookup uuid (Some (reqFilesize req)) (Some (reqFilename req))
    table' = Ok tt
  /\ (forall name, onUploadCreate ENV mime_lookup uuid None name table' = Ok tt)
  /\ (forall uploadSize, onUploadCreate ENV mime_lookup uuid uploadSize None table' = Ok tt).
Proof.
  intros Htype Hok table'.
  pose proof (createVideoUpload_success ENV mime_lookup uuid now req table data Hok)
    as (_ & _ & _ & r & Hr & _ & Hs & _).
  fold table' in Hr.
  assert (isValid (validateUpload ENV mime_lookup (reqFilename req) (reqFilesize req)) = true)
    as Hvalid.
  { revert Hok. unfold createVideoUpload.
    rewrite (validator_symmetry_resumable ENV mime_lookup _ _ _ Htype).
    destruct (negb (truthy (reqFilename req)) || (reqFilesize req =? 0)); [done|].
    by destruct (isValid (validateUpload ENV mime_lookup (reqFilename req) (reqFilesize req))). }
  unfold onUploadCreate, getVideoRecord. rewrite Hr, Hs.
  change (Status_eqb Uploading Uploading) with true. cbn [negb].
  split; [|split].
  - rewrite Hvalid. by destruct (negb (reqFilesize req =? 0) && truthy (reqFilename req)).
  - by intros [name|].
  - by intros [uploadSize|].
Qed.

End IngressFacts.

Lemma resumable_session_passes_onUploadCreate_witness :
  let table' :=
    (createVideoUpload sampleENV sampleMimeLookup "id-7" 1000 samplePrefixRequest ∅).1 in
  onUploadCreate sampleENV sampleMimeLookup "id-7" (Some (10 * MiB)) (Some "clip.mp4")
    table' = Ok tt.
Proof.
  assert (reqType samplePrefixRequest <> "direct") as Htype by discriminate.
  assert (exists data,
            (createVideoUpload sampleENV sampleMimeLookup "id-7" 1000 samplePrefixRequest ∅).2
            = SuccessResponse data) as [data Hok] by (eexists; vm_compute; reflexivity).
  exact (proj1 (resumable_session_passes_onUploadCreate sampleENV sampleMimeLookup
                  "id-7" 1000 samplePrefixRequest ∅ data Htype Hok)).
Defined.

(** ** Runs of a job: failure, success, and what a delivery never touches *)










Section Runs.

Context (ENV : Environment) (path_parse_name : string -> string)
  (floorShare15 : Z -> Z -> Z).





(** What [transcodeAndUpload] leaves alone: the flag, the existence of the
    row, every other row; its events are those of the transcoder. *)
Lemma transcodeAndUpload_frame (env : Env) (localPath name id : string)
    (s3Path : option string) (uploadToS3 : bool) (w : World) :
  let out := transcodeAndUpload ENV path_parse_name floorShare15 env localPath name id
               s3Path uploadToS3 w in
  messageAcknowledged out.2 = messageAcknowledged w
  /\ (hasRow id (db w) -> hasRow id (db out.2))
  /\ (notCompleted id (db w) -> notCompleted id (db out.2))
  /\ exists evs, trace out.2 = (trace w ++ evs)%list /\ Forall (transcoderEvent id) evs.
Proof.
  intros out.
  set (R := fun x y : Store * bool =>
              x.2 = y.2 /\ (hasRow id x.1 -> hasRow id y.1)
              /\ (notCompleted id x.1 -> notCompleted id y.1)).
  assert (forall now table (b : bool) updates,
            forallb transcoderField updates = true ->
            R (table, b) ((updateVideoRecord now table id updates).1, b)) as Hupd.
  { intros now table b updates Hf. split; [done|]. split.
    - simpl. unfold hasRow.
      rewrite updateVideoRecord_lookup, decide_True by done.
      intros [r ->]. by eexists.
    - apply (notCompleted_transcoder_updates id now table b updates Hf). }
  assert (forall x y, rtc R x y ->
            x.2 = y.2 /\ (hasRow id x.1 -> hasRow id y.1)
            /\ (notCompleted id x.1 -> notCompleted id y.1)) as HR.
  { induction 1 as [|x y z (H1 & H2 & H3) _ (IH1 & IH2 & IH3)]; [done|].
    split; [congruence|]. split; tauto. }
  destruct (confined_transcodeAndUpload ENV path_parse_name floorShare15 R id Hupd
              env localPath name s3Path uploadToS3 w) as [Hrtc Hevs].
  apply HR in Hrtc as (Hflag & Hrow & Hnc). fold out in Hflag, Hrow, Hnc, Hevs.
  simpl in Hflag, Hrow, Hnc. by repeat split.
Qed.

Lemma filter_transcoderEvent (id : string) (evs : list Event) :
  Forall (transcoderEvent id) evs ->
  List.filter isCleanup evs = [] /\ List.filter isPost evs = [].
Proof.
  induction 1 as [|e evs He _ [IH1 IH2]]; [done|].
  destruct e; simpl in *; try done.
Qed.

(** The run of [reportFailure] for a job whose row exists. *)
Lemma reportFailure_run (env : Env) (job : Job) (id e : string) (w : World)
    (r : VideoRecord) :
  uploadId job = Some id ->
  db w !! id = Some r ->
  let r1 := toRow (mergeUpdates (clock env) r [SetStatus Failed; SetError (Some e)]) in
  let w1 := mkWorld (<[id := r1]> (db w)) (messageAcknowledged w)
              (trace w ++ [EvWrite id (progress r1); EvCleanup id (filePath job)]) in
  (reportFailure env (ParsedJob job) e w).2
  = if truthyO (jobCallbackUrl job)
    then mkWorld
           (<[id := toRow (mergeUpdates (clock env) r1 (callbackUpdates env))]> (db w1))
           (messageAcknowledged w)
           (trace w1 ++ [EvPost (orEmpty (jobCallbackUrl job))
                           (FailedPayload id (jobFilename job) e);
                         EvWrite id (progress r1)])
    else w1.
Proof.
  intros Hid Hr r1 w1.
  unfold reportFailure. rewrite Hid.
  assert (updateRecord (clock env) id [SetStatus Failed; SetError (Some e)] w
          = (Ok (Some (mergeUpdates (clock env) r [SetStatus Failed; SetError (Some e)])),
             mkWorld (<[id := r1]> (db w)) (messageAcknowledged w)
               (trace w ++ [EvWrite id (progress r1)]))) as Hupd.
  { unfold updateRecord, updateVideoRecord, getVideoRecord. rewrite Hr. simpl.
    by rewrite lookup_insert_eq. }
  unfold tryCatch at 1.
  rewrite (bind_Ok _ _ _ _ _ Hupd).
  unfold cleanupVideoFiles. unfold bind at 1, emit at 1. cbv beta iota zeta.
  destruct (jobCallbackUrl job) as [url|]; simpl.
  2: { subst w1. f_equal. by rewrite <- app_assoc. }
  unfold when. destruct (truthy url); simpl.
  2: { subst w1. f_equal. by rewrite <- app_assoc. }
  erewrite sendWebhook_run; [|simpl; apply lookup_insert_eq].
  subst w1. simpl. f_equal. by rewrite <- !app_assoc.
Qed.


Lemma filter_app_nil {A} (f : A -> bool) (l1 l2 : list A) :
  List.filter f l1 = [] -> List.filter f (l1 ++ l2) = List.filter f l2.
Proof. intros H. by rewrite List.filter_app, H. Qed.

(** X14: a job whose transcoding throws ends failed and reported.  When
    [transcodeAndUpload] throws in the run of an acquired job, the record
    ends in status failed with the message thrown as its error, the files
    of the job are cleaned up exactly once, and exactly one POST is made
    when the job has a callback URL, with the failure payload (none
    otherwise). *)
Theorem failed_job_is_reported (env : Env) (job : Job) (id msg : string)
    (r : VideoRecord) (table : Store) :
  uploadId job = Some id ->
  table !! id = Some r ->
  acquirable r = true ->
  channelOpen env = true ->
  truthy msg = true ->
  (transcodeAndUpload ENV path_parse_name floorShare15 env (filePath job)
     (jobFilename job) id (jobS3Path job) (jobUploadToS3 job)
     (acquiredWorld table id r)).1 = Thrown msg ->
  let final := deliver ENV path_parse_name floorShare15 env (ParsedJob job) table in
  (exists r', db final !! id = Some r' /\ status r' = Failed /\ error r' = Some msg)
  /\ List.filter isCleanup (trace final) = [EvCleanup id (filePath job)]
  /\ List.filter isPost (trace final)
     = if truthyO (jobCallbackUrl job)
       then [EvPost (orEmpty (jobCallbackUrl job)) (FailedPayload id (jobFilename job) msg)]
       else [].
Proof.
  intros Hid Hr Hacq Hopen Hmsg Hthrown final.
  set (out := transcodeAndUpload ENV path_parse_name floorShare15 env (filePath job)
                (jobFilename job) id (jobS3Path job) (jobUploadToS3 job)
                (acquiredWorld table id r)) in *.
  destruct (transcodeAndUpload_frame env (filePath job) (jobFilename job) id
              (jobS3Path job) (jobUploadToS3 job) (acquiredWorld table id r))
    as (Hflag & Hrow & _ & evs & Ht & Hevs).
  fold out in Hflag, Hrow, Ht.
  destruct Hrow as [r3 Hr3]; [unfold hasRow; simpl; rewrite lookup_insert_eq; by eexists|].
  assert (final = (reportFailure env (ParsedJob job) msg out.2).2) as Hfinal.
  { subst final.
    rewrite (deliver_acquired ENV path_parse_name floorShare15 env job id r table
               Hid Hr Hacq Hopen).
    assert (processJob ENV path_parse_name floorShare15 env job id
              (acquiredWorld table id r) = (Thrown msg, out.2)) as Hjob.
    { unfold processJob. apply bind_Thrown. fold out.
      rewrite <- Hthrown. by destruct out. }
    rewrite (tryCatch_Thrown _ _ _ _ _ Hjob).
    by rewrite catchBlock_acknowledged by (rewrite Hflag; reflexivity). }
  split.
  { rewrite Hfinal. by apply (reportFailure_marks_failed env job id msg out.2 r3). }
  rewrite Hfinal, (reportFailure_run env job id msg out.2 r3 Hid Hr3).
  destruct (filter_transcoderEvent id evs Hevs) as [Hc Hp].
  destruct (truthyO (jobCallbackUrl job)); simpl; rewrite Ht; simpl;
    rewrite <- ?app_assoc, !List.filter_app, Hc, Hp; simpl; done.
Qed.


End Runs.

Lemma failed_job_is_reported_witness :
  let final :=
    deliver sampleENV sampleParseName sampleFloorShare15 sampleEnvHlsFails
      (ParsedJob (sampleJob "v1" false)) {["v1" := sampleRecord "v1" Uploading 0]} in
  (exists r', db final !! "v1" = Some r' /\ status r' = Failed
     /\ error r' = Some "Failed to transcode video with both stream copy and re-encoding")
  /\ List.filter isCleanup (trace final) = [EvCleanup "v1" "uploads/v1"]
  /\ List.filter isPost (trace final)
     = [EvPost "https://client.example/hook"
          (FailedPayload "v1" "clip.mp4"
             "Failed to transcode video with both stream copy and re-encoding")].
Proof.
  apply (failed_job_is_reported sampleENV sampleParseName sampleFloorShare15
           sampleEnvHlsFails (sampleJob "v1" false) "v1"
           "Failed to transcode video with both stream copy and re-encoding"
           (sampleRecord "v1" Uploading 0) {["v1" := sampleRecord "v1" Uploading 0]});
    vm_compute; reflexivity.
Defined.

(** ** What a delivery never touches *)

Lemma workerField_fixedFields (updates : list FieldUpdate) (r : VideoRecord) :
  forallb workerField updates = true ->
  fixedFields (spread r updates) = fixedFields r.
Proof.
  revert r. induction updates as [|u updates IH]; intros r H; [done|].
  simpl in H. apply andb_true_iff in H as [Hu H].
  rewrite spread_cons, IH by done.
  by destruct u.
Qed.

Lemma fixedFields_toRow (r : VideoRecord) : fixedFields (toRow r) = fixedFields r.
Proof. unfold fixedFields, toRow. simpl. by rewrite !orNull_idemp. Qed.

Lemma fixedFields_row (now : Z) (updates : list FieldUpdate) (r : VideoRecord) :
  forallb workerField updates = true ->
  fixedFields (toRow (mergeUpdates now r updates)) = fixedFields r.
Proof.
  intros H. rewrite fixedFields_toRow. unfold mergeUpdates.
  case_bool_decide; [|by apply workerField_fixedFields].
  transitivity (fixedFields (spread r updates)); [done|by apply workerField_fixedFields].
Qed.

Lemma jobField_workerField (updates : list FieldUpdate) :
  forallb jobField updates = true -> forallb workerField updates = true.
Proof.
  induction updates as [|u updates IH]; [done|]. simpl.
  intros [Hu H]%andb_true_iff. rewrite IH by done.
  by destruct u.
Qed.

Lemma sameFixedFields_update (id : string) (now : Z) (table : Store) (b : bool)
    (updates : list FieldUpdate) :
  forallb workerField updates = true ->
  sameFixedFields (table, b) ((updateVideoRecord now table id updates).1, b).
Proof.
  intros H k. simpl. rewrite updateVideoRecord_lookup.
  destruct (decide (id = k)) as [->|]; [|done].
  destruct (table !! k) as [r|]; [|done]. simpl. by rewrite fixedFields_row.
Qed.

Lemma sameFixedFields_guard (id : string) (table : Store) (b : bool) :
  sameFixedFields (table, b) ((safelyTransitionToProcessing table id).1, b).
Proof.
  intros k. simpl. rewrite safelyTransitionToProcessing_lookup.
  destruct (decide (id = k)) as [->|]; [|done].
  destruct (table !! k) as [r|]; [|done]. simpl. by destruct (acquirable r).
Qed.

Lemma rtc_sameFixedFields (x y : Store * bool) :
  rtc sameFixedFields x y -> sameFixedFields x y.
Proof.
  induction 1 as [|x y z Hxy _ IH]; [done|].
  intros k. by rewrite IH, Hxy.
Qed.

(** X16: what a delivery never touches.  Whatever the message, the table
    and the outcome of the external steps, a delivery neither adds nor
    removes a row, leaves every row other than that of its [uploadId]
    exactly as it was, and never changes the id, the file name, the creation
    time, the [uploadToS3] flag, the upload type, the callback URL or the
    custom path of any row (an empty string counting as no value, as the
    store writes it). *)
Theorem deliver_frame (ENV : Environment) (path_parse_name : string -> string)
    (floorShare15 : Z -> Z -> Z) (env : Env) (d : Delivery) (table : Store) :
  let final := deliver ENV path_parse_name floorShare15 env d table in
  (forall k, fixedFields <$> db final !! k = fixedFields <$> table !! k)
  /\ dom (db final) = dom table
  /\ (forall k, deliveryId d <> Some k -> db final !! k = table !! k).
Proof.
  intros final.
  assert (forall k, fixedFields <$> db final !! k = fixedFields <$> table !! k) as Hfixed.
  { set (id := default EmptyString (deliveryId d)).
    pose proof (deliver_outcome ENV path_parse_name floorShare15 sameFixedFields id
                  ltac:(intros; apply sameFixedFields_update; by apply jobField_workerField)
                  ltac:(intros; apply sameFixedFields_guard)
                  ltac:(by intros) env d table
                  ltac:(subst id; destruct (deliveryId d); auto)) as Hout.
    fold final in Hout.
    destruct Hout as [[Hrtc _]|(w1 & url & payload & r & [Hrtc _] & Hr & _ & Hfinal)].
    - apply rtc_sameFixedFields in Hrtc. exact Hrtc.
    - apply rtc_sameFixedFields in Hrtc. intros k.
      rewrite Hfinal, (sendWebhook_run env id url payload w1 r Hr). simpl.
      pose proof (Hrtc k) as Hk0. simpl in Hk0. rewrite <- Hk0.
      destruct (decide (k = id)) as [->|Hk].
      + rewrite lookup_insert_eq, Hr. simpl. f_equal. apply fixedFields_row.
        by destruct (callbackUpdates_cases env) as [-> | ->].
      + by rewrite lookup_insert_ne. }
  split; [exact Hfixed|]. split.
  - apply set_eq. intros k. rewrite !elem_of_dom. specialize (Hfixed k).
    destruct (db final !! k), (table !! k); simpl in Hfixed; try done.
  - intros k Hk.
    by destruct (deliver_other_row ENV path_parse_name floorShare15 env d k table Hk).
Qed.

(** ** Jobs without a callback URL, completed records, published keys *)

Section FurtherRuns.

Context (ENV : Environment) (path_parse_name : string -> string)
  (floorShare15 : Z -> Z -> Z).

Let anyStep : relation (Store * bool) := fun _ _ => True.

Lemma confined_processJob_noPost (env : Env) (job : Job) (id : string) :
  truthyO (jobCallbackUrl job) = false ->
  confined anyStep noPost (processJob ENV path_parse_name floorShare15 env job id).
Proof.
  intros Hcb. unfold processJob.
  apply confined_bind.
  { eapply confined_weaken;
      [| |apply (confined_transcodeAndUpload ENV path_parse_name floorShare15 anyStep id)];
      [done|apply transcoderEvent_noPost|done]. }
  intros url. apply confined_bind; [by apply confined_updateRecord|].
  intros updatedRecord. apply confined_bind; [by apply confined_emit|]. intros _.
  destruct (jobCallbackUrl job) as [cb|]; [|apply confined_ret].
  simpl in Hcb. rewrite Hcb.
  destruct updatedRecord; apply confined_ret.
Qed.

Lemma confined_reportFailure_noPost (env : Env) (d : Delivery) (e : string) :
  (forall job, d = ParsedJob job -> truthyO (jobCallbackUrl job) = false) ->
  confined anyStep noPost (reportFailure env d e).
Proof.
  intros Hcb. unfold reportFailure.
  apply confined_tryCatch; [|intros _; apply confined_ret].
  destruct d as [| |job]; [apply confined_throw|apply confined_ret|].
  specialize (Hcb job eq_refl).
  destruct (uploadId job) as [id|].
  - apply confined_bind; [by apply confined_updateRecord|].
    intros updatedRecord. apply confined_bind; [by apply confined_emit|]. intros _.
    destruct (jobCallbackUrl job) as [cb|]; [|apply confined_ret].
    simpl in Hcb. rewrite Hcb.
    destruct updatedRecord; apply confined_ret.
  - destruct (bindThrows env); apply confined_throw.
Qed.

(** X17: no callback URL, no POST.  A delivery that is not a job, or whose
    job has no callback URL (absent or empty), makes no webhook request,
    whatever the table and the outcome of the external steps. *)
Theorem no_callback_no_post (env : Env) (d : Delivery) (table : Store) :
  (forall job, d = ParsedJob job -> truthyO (jobCallbackUrl job) = false) ->
  List.filter isPost (trace (deliver ENV path_parse_name floorShare15 env d table)) = [].
Proof.
  intros Hcb. apply noPost_filter.
  assert (confined anyStep noPost (ackMessage env)) as Hack.
  { unfold ackMessage. apply confined_bind.
    - unfold channelAck. destruct (channelOpen env);
        [by apply confined_emit|apply confined_throw].
    - intros _. by apply confined_setAcknowledged. }
  assert (confined anyStep noPost (tryBlock ENV path_parse_name floorShare15 env d)) as Htry.
  { unfold tryBlock. destruct d as [| |job]; [apply confined_throw|exact Hack|].
    specialize (Hcb job eq_refl). unfold transitionJob.
    destruct (uploadId job) as [i|].
    - apply confined_bind; [by apply confined_transition|].
      intros tr. destruct (negb (success tr)); [exact Hack|].
      apply confined_bind; [exact Hack|]. intros _.
      by apply confined_processJob_noPost.
    - apply confined_bind.
      + destruct (bindThrows env); [apply confined_throw|apply confined_ret].
      + intros tr. destruct (negb (success tr)); [exact Hack|].
        apply confined_bind; [exact Hack|]. intros _. apply confined_ret. }
  assert (forall e, confined anyStep noPost (catchBlock env d e)) as Hcatch.
  { intros e. unfold catchBlock.
    apply confined_bind; [apply confined_isAcknowledged|]. intros acknowledged.
    apply confined_bind.
    - apply confined_when. apply confined_tryCatch; [exact Hack|].
      intros _. apply confined_ret.
    - intros _. by apply confined_reportFailure_noPost. }
  destruct (confined_tryCatch anyStep noPost _ _ Htry Hcatch (mkWorld table false []))
    as (_ & evs & Ht & Hevs).
  unfold deliver, consume. simpl in *. by rewrite Ht.
Qed.

(** X18: a completed record is not transcoded again.  Called for a record
    whose status is completed, [transcodeAndUpload] returns the stored
    stream URL (the empty string when there is none) without running a
    command, storing an object or writing to the table. *)
Theorem transcodeAndUpload_completed (env : Env) (localPath name id : string)
    (s3Path : option string) (uploadToS3 : bool) (w : World) (r : VideoRecord) :
  truthy id = true ->
  db w !! id = Some r ->
  status r = Completed ->
  transcodeAndUpload ENV path_parse_name floorShare15 env localPath name id
    s3Path uploadToS3 w
  = (Ok (orEmpty (streamUrl r)), w).
Proof.
  intros Hid Hr Hs. unfold transcodeAndUpload.
  assert (recheckRecord env id w = (Ok (Some (orEmpty (streamUrl r))), w)) as Hre.
  { unfold recheckRecord. rewrite Hid.
    unfold bind, readRecord, getVideoRecord. rewrite Hr, Hs. reflexivity. }
  by rewrite (bind_Ok _ _ _ _ _ Hre).
Qed.

(** ** The keys of the published files *)









End FurtherRuns.

Lemma no_callback_no_post_witness :
  List.filter isPost
    (trace (deliver sampleENV sampleParseName sampleFloorShare15 sampleEnv
              (ParsedJob (mkJob (Some "v1") "uploads/v1" "clip.mp4" None None false))
              {["v1" := sampleRecord "v1" Uploading 0]})) = [].
Proof.
  apply (no_callback_no_post sampleENV sampleParseName sampleFloorShare15 sampleEnv
           (ParsedJob (mkJob (Some "v1") "uploads/v1" "clip.mp4" None None false))
           {["v1" := sampleRecord "v1" Uploading 0]}).
  intros job [= <-]. reflexivity.
Defined.

Lemma transcodeAndUpload_completed_witness :
  transcodeAndUpload sampleENV sampleParseName sampleFloorShare15 sampleEnv
    "uploads/v1" "clip.mp4" "v1" None true (mkWorld {["v1" := sampleCompletedRecord]} true [])
  = (Ok "video-streams.http://minio:9000/v1/index.m3u8",
     mkWorld {["v1" := sampleCompletedRecord]} true []).
Proof.
  apply (transcodeAndUpload_completed sampleENV sampleParseName sampleFloorShare15 sampleEnv
           "uploads/v1" "clip.mp4" "v1" None true
           (mkWorld {["v1" := sampleCompletedRecord]} true []) sampleCompletedRecord);
    vm_compute; reflexivity.
Defined.

